(** * ZK-RSA Setup Verifier: the arithmetic circuit and its Python driver

    The repository consists of one Python file, [zk-rsa-verifier.py].  It
    writes a circom circuit ([RSASetupVerifier] and its gadget templates),
    hands it to circom and snarkjs, and validates the private inputs in
    Python before a witness is computed.

    The development has two parts.  Part I embeds the program: the prime
    field of the circuit, one module per circom template (signals, witness
    computation, constraints), the Python methods [_is_prime],
    [find_16bit_primes] and [generate_proof], and, in module [Driver], the
    project setup, [verify_proof] and [run_demo].  Part II proves
    properties of these definitions.

    Conventions of the embedding.
    - A signal is an integer; a field element is an integer in [0, Fr).
      A constraint [a === b] is a congruence modulo [Fr] ([feq]), so it is
      meaningful on every integer assignment.
    - [x <== e] contributes the assignment [x := e] to the witness
      computation and the constraint [x === e]; [x <-- e] contributes the
      assignment only.
    - A signal array is a list; its declared length is part of the
      constraint predicate.  A component is a nested record of signals.
    - A constraint is the polynomial equality written in the template,
      whatever its degree: the product of five signals that defines
      [valid] is one equality.
    - circom compiles for the scalar field of BN254 unless told otherwise,
      and the driver calls it without a prime option: [Fr] is that prime. *)

From Stdlib Require Import String Ascii DecimalString.
From Stdlib Require Import ZArith Znumtheory Zpow_facts Zdivisibility Zcong ZmodInv.
From Stdlib Require Import List Bool Lia Setoid Morphisms RelationClasses Sorted.
Import ListNotations.
Local Open Scope Z_scope.

(* ================================================================== *)
(** * Part I: definitions *)
(* ================================================================== *)

(** ** Primality certificates

    Used once, to establish that the field modulus is prime. *)

Module Certificate.

(** Trial division by d, d+1, ... until d*d exceeds n. *)
Fixpoint trial (fuel : nat) (d n : Z) : bool :=
  match fuel with
  | O => false
  | S f =>
      if n <? d * d then true
      else if n mod d =? 0 then false
      else trial f (d + 1) n
  end.

Definition prime_check (n : Z) : bool :=
  (1 <? n) && trial (Z.to_nat (Z.sqrt n)) 2 n.

(** Pocklington's criterion for N with base a: an entry (p, e) stands
    for the prime power p^(e+1) dividing N-1. *)
Definition pock_item (N a : Z) (c : Z * Z) : bool :=
  let '(p, e) := c in
  (0 <=? e) && ((N - 1) mod (p * p ^ e) =? 0)
  && (Z.gcd (Zpow_mod a ((N - 1) / p) N - 1) N =? 1).

Definition pock_F (cs : list (Z * Z)) : Z :=
  fold_right (fun c acc => let '(p, e) := c in Z.lcm (p * p ^ e) acc) 1 cs.

Definition pock_check (N a : Z) (cs : list (Z * Z)) : bool :=
  (1 <? N) && (Zpow_mod a (N - 1) N =? 1)
  && forallb (pock_item N a) cs
  && (N <? pock_F cs * pock_F cs).

End Certificate.

(** ** The field *)

(** Modelled from the spec: the prime field of the circuit ("arithmetic
    over a large prime field"), whose modulus the source leaves to circom.
    The driver calls circom without a prime option, so the modulus is
    circom's default: the order of the scalar field of BN254 (bn128). *)
Definition Fr : Z :=
  21888242871839275222246405745257275088548364400416034343698204186575808495617.

(** Number of significant bits of [Fr], and circom's shift mask. *)
Definition Fr_bits : Z := 254.
Definition Fr_mask : Z := Z.ones Fr_bits.

Definition fadd (a b : Z) : Z := (a + b) mod Fr.
Definition fsub (a b : Z) : Z := (a - b) mod Fr.
Definition fmul (a b : Z) : Z := (a * b) mod Fr.
Definition fneg (a : Z) : Z := (- a) mod Fr.
(** [a / b] in the field: multiplication by the modular inverse. *)
Definition fdiv (a b : Z) : Z := (a * Z.invmod b Fr) mod Fr.
(** [a \ b] and [a % b]: quotient and remainder of the integers. *)
Definition fidiv (a b : Z) : Z := a / b.
Definition fmod (a b : Z) : Z := a mod b.
(** [x << k] and [x >> k] as circom defines them on field elements, for
    shift amounts up to Fr/2: every shift of this circuit is by a template
    parameter or a loop index, which count signals. *)
Definition fshl (x k : Z) : Z := (Z.land (Z.shiftl x k) Fr_mask) mod Fr.
Definition fshr (x k : Z) : Z := Z.shiftr x k.
Definition fand (a b : Z) : Z := (Z.land a b) mod Fr.
(** A numeric literal of the circuit text. *)
Definition fconst (c : Z) : Z := c mod Fr.

(** The constraint [a === b]. *)
Definition feq (a b : Z) : bool := (a mod Fr =? b mod Fr).

(** Congruence modulo Fr, with the ring operations as morphisms. *)
Notation "a == b" := (eqm Fr a b) (at level 70).

#[global] Instance eqm_Fr_equiv : Equivalence (eqm Fr) := eqm_setoid Fr.
#[global] Instance add_eqm_Fr :
  Proper (eqm Fr ==> eqm Fr ==> eqm Fr) Z.add := Zplus_eqm Fr.
#[global] Instance sub_eqm_Fr :
  Proper (eqm Fr ==> eqm Fr ==> eqm Fr) Z.sub := Zminus_eqm Fr.
#[global] Instance mul_eqm_Fr :
  Proper (eqm Fr ==> eqm Fr ==> eqm Fr) Z.mul := Zmult_eqm Fr.
#[global] Instance opp_eqm_Fr :
  Proper (eqm Fr ==> eqm Fr) Z.opp := Zopp_eqm Fr.

(** Wiring of one signal array to another, index by index. *)
Definition feq_list (l1 l2 : list Z) : bool :=
  (length l1 =? length l2)%nat
  && forallb (fun ab => feq (fst ab) (snd ab)) (combine l1 l2).

(** The integer denoted by an array of bit signals, least significant
    first, each signal read as its canonical field element. *)
Definition bits_value (bs : list Z) : Z :=
  fold_right (fun b acc => b mod Fr + 2 * acc) 0 bs.

(** A signal that holds 0 or 1. *)
Definition is_bit (b : Z) : Prop := b == 0 \/ b == 1.

(** A value that is literally 0 or 1. *)
Definition zero_or_one (c : Z) : Prop := c = 0 \/ c = 1.

(** Exactly one of three propositions holds. *)
Definition exactly_one (A B C : Prop) : Prop :=
  (A /\ ~ B /\ ~ C) \/ (~ A /\ B /\ ~ C) \/ (~ A /\ ~ B /\ C).

(** ** The circom templates *)

(** template IsZero() *)
Module IsZero.
Record signals := { in_ : Z; out : Z; inv : Z }.

Definition witness (x : Z) : signals :=
  (* inv <-- in != 0 ? 1/in : 0; *)
  let inv := if negb (x =? 0) then fdiv 1 x else 0 in
  (* out <== -in * inv + 1; *)
  let out := fadd (fmul (fneg x) inv) 1 in
  {| in_ := x; out := out; inv := inv |}.

Definition constraints (s : signals) : bool :=
  feq (out s) (fadd (fmul (fneg (in_ s)) (inv s)) 1)
  (* in * out === 0; *)
  && feq (fmul (in_ s) (out s)) 0.
End IsZero.

(** template Bits2Num(n) *)
Module Bits2Num.
Record signals := { in_ : list Z; out : Z }.

(** The loop [lc += in[i] * e2; e2 = e2 * 2] over the remaining inputs. *)
Fixpoint loop (ins : list Z) (e2 lc : Z) : Z :=
  match ins with
  | [] => lc
  | b :: rest => loop rest (fmul e2 2) (fadd lc (fmul b e2))
  end.

Definition lc (n : nat) (ins : list Z) : Z := loop (firstn n ins) 1 0.

Definition witness (n : nat) (ins : list Z) : signals :=
  {| in_ := ins; out := lc n ins |}.

Definition constraints (n : nat) (s : signals) : bool :=
  (length (in_ s) =? n)%nat
  (* out <== lc; *)
  && feq (out s) (lc n (in_ s)).
End Bits2Num.

(** template Num2Bits(n) *)
Module Num2Bits.
Record signals := { in_ : Z; out : list Z; n2b : Bits2Num.signals }.

(** out[i] <-- (in >> i) & 1; *)
Definition bit (x : Z) (i : nat) : Z := fand (fshr x (Z.of_nat i)) 1.

Definition witness (n : nat) (x : Z) : signals :=
  let bits := map (bit x) (seq 0 n) in
  {| in_ := x; out := bits; n2b := Bits2Num.witness n bits |}.

Definition constraints (n : nat) (s : signals) : bool :=
  (length (out s) =? n)%nat
  (* out[i] * (out[i] - 1) === 0; *)
  && forallb (fun b => feq (fmul b (fsub b 1)) 0) (out s)
  (* n2b.in[i] <== out[i]; *)
  && feq_list (Bits2Num.in_ (n2b s)) (out s)
  && Bits2Num.constraints n (n2b s)
  (* n2b.out === in; *)
  && feq (Bits2Num.out (n2b s)) (in_ s).
End Num2Bits.

(** template LessThan(n) *)
Module LessThan.
Record signals := { in_ : Z * Z; out : Z; n2b : Num2Bits.signals }.

(** in[0] + (1<<n) - in[1] *)
Definition diff (n : nat) (ab : Z * Z) : Z :=
  fsub (fadd (fst ab) (fshl 1 (Z.of_nat n))) (snd ab).

Definition witness (n : nat) (ab : Z * Z) : signals :=
  let nb := Num2Bits.witness (n + 1) (diff n ab) in
  {| in_ := ab; n2b := nb;
     out := fsub 1 (nth n (Num2Bits.out nb) 0) |}.

Definition constraints (n : nat) (s : signals) : bool :=
  (* n2b.in <== in[0] + (1<<n) - in[1]; *)
  feq (Num2Bits.in_ (n2b s)) (diff n (in_ s))
  && Num2Bits.constraints (n + 1) (n2b s)
  (* out <== 1 - n2b.out[n]; *)
  && feq (out s) (fsub 1 (nth n (Num2Bits.out (n2b s)) 0)).
End LessThan.

(** template GreaterEqThan(n) *)
Module GreaterEqThan.
Record signals := { in_ : Z * Z; out : Z; lt : LessThan.signals }.

Definition witness (n : nat) (ab : Z * Z) : signals :=
  let l := LessThan.witness n (fst ab, snd ab) in
  {| in_ := ab; lt := l; out := fsub 1 (LessThan.out l) |}.

Definition constraints (n : nat) (s : signals) : bool :=
  (* lt.in[0] <== in[0]; lt.in[1] <== in[1]; *)
  feq (fst (LessThan.in_ (lt s))) (fst (in_ s))
  && feq (snd (LessThan.in_ (lt s))) (snd (in_ s))
  && LessThan.constraints n (lt s)
  (* out <== 1 - lt.out; *)
  && feq (out s) (fsub 1 (LessThan.out (lt s))).
End GreaterEqThan.

(** template LessEqThan(n) *)
Module LessEqThan.
Record signals := { in_ : Z * Z; out : Z; lt : LessThan.signals }.

Definition witness (n : nat) (ab : Z * Z) : signals :=
  let l := LessThan.witness n (snd ab, fst ab) in
  {| in_ := ab; lt := l; out := fsub 1 (LessThan.out l) |}.

Definition constraints (n : nat) (s : signals) : bool :=
  (* lt.in[0] <== in[1]; lt.in[1] <== in[0]; *)
  feq (fst (LessThan.in_ (lt s))) (snd (in_ s))
  && feq (snd (LessThan.in_ (lt s))) (fst (in_ s))
  && LessThan.constraints n (lt s)
  (* out <== 1 - lt.out; *)
  && feq (out s) (fsub 1 (LessThan.out (lt s))).
End LessEqThan.

(** template IsEqual() *)
Module IsEqual.
Record signals := { in_ : Z * Z; out : Z; isz : IsZero.signals }.

Definition witness (ab : Z * Z) : signals :=
  let z := IsZero.witness (fsub (fst ab) (snd ab)) in
  {| in_ := ab; isz := z; out := IsZero.out z |}.

Definition constraints (s : signals) : bool :=
  (* isz.in <== in[0] - in[1]; *)
  feq (IsZero.in_ (isz s)) (fsub (fst (in_ s)) (snd (in_ s)))
  && IsZero.constraints (isz s)
  (* out <== isz.out; *)
  && feq (out s) (IsZero.out (isz s)).
End IsEqual.

(** template ModulusCheck(n); the parameter n is not used by the body. *)
Module ModulusCheck.
Record signals := {
  value : Z; modulus : Z; isNotDivisible : Z;
  quotient : Z; remainder : Z; isZero : IsZero.signals }.

Definition witness (n : nat) (value modulus : Z) : signals :=
  (* quotient <-- value \ modulus; remainder <-- value % modulus; *)
  let quotient := fidiv value modulus in
  let remainder := fmod value modulus in
  let z := IsZero.witness remainder in
  {| value := value; modulus := modulus;
     quotient := quotient; remainder := remainder; isZero := z;
     isNotDivisible := fsub 1 (IsZero.out z) |}.

Definition constraints (n : nat) (s : signals) : bool :=
  (* value === quotient * modulus + remainder; *)
  feq (value s) (fadd (fmul (quotient s) (modulus s)) (remainder s))
  (* isZero.in <== remainder; *)
  && feq (IsZero.in_ (isZero s)) (remainder s)
  && IsZero.constraints (isZero s)
  (* isNotDivisible <== 1 - isZero.out; *)
  && feq (isNotDivisible s) (fsub 1 (IsZero.out (isZero s))).

(** The all-zero assignment, the default of out-of-range array reads. *)
Definition zero : signals :=
  {| value := 0; modulus := 0; isNotDivisible := 0; quotient := 0;
     remainder := 0; isZero := {| IsZero.in_ := 0; IsZero.out := 0; IsZero.inv := 0 |} |}.
End ModulusCheck.

(** template SimplePrimalityTest() *)
Module SimplePrimalityTest.
Record signals := {
  n : Z; isPrime : Z;
  checks : list Z;
  modChecks : list ModulusCheck.signals;
  accumulated : list Z }.

(** var primes[54] *)
Definition primes : list Z :=
  [2;3;5;7;11;13;17;19;23;29;31;37;41;43;47;53;59;61;67;71;73;79;83;89;97;
   101;103;107;109;113;127;131;137;139;149;151;157;163;167;173;179;181;191;
   193;197;199;211;223;227;229;233;239;241;251].

(** The policy the gadget implements: no entry of the table divides x. *)
Definition passes_trial_division (x : Z) : bool :=
  forallb (fun pr => negb (x mod pr =? 0)) primes.

(** accumulated[i] <== accumulated[i-1] * checks[i], for the checks that
    follow the one whose accumulated value is [prev]. *)
Fixpoint accumulate (prev : Z) (cs : list Z) : list Z :=
  match cs with
  | [] => []
  | c :: rest => let a := fmul prev c in a :: accumulate a rest
  end.

(** accumulated[0] <== checks[0]; and the loop over the rest. *)
Definition accumulation (cs : list Z) : list Z :=
  match cs with
  | [] => []
  | c0 :: rest => c0 :: accumulate c0 rest
  end.

Definition witness (x : Z) : signals :=
  (* modChecks[i] = ModulusCheck(20); .value <== n; .modulus <== primes[i]; *)
  let mcs := map (fun pr => ModulusCheck.witness 20 x (fconst pr)) primes in
  (* checks[i] <== modChecks[i].isNotDivisible; *)
  let cs := map ModulusCheck.isNotDivisible mcs in
  let acc := accumulation cs in
  {| n := x; modChecks := mcs; checks := cs; accumulated := acc;
     (* isPrime <== accumulated[53]; *)
     isPrime := nth 53 acc 0 |}.

Definition constraints (s : signals) : bool :=
  (length (checks s) =? 54)%nat
  && (length (modChecks s) =? 54)%nat
  && (length (accumulated s) =? 54)%nat
  && forallb (fun i =>
       let mc := nth i (modChecks s) ModulusCheck.zero in
       ModulusCheck.constraints 20 mc
       && feq (ModulusCheck.value mc) (n s)
       && feq (ModulusCheck.modulus mc) (fconst (nth i primes 0))
       && feq (nth i (checks s) 0) (ModulusCheck.isNotDivisible mc))
     (seq 0 54)
  && feq (nth 0 (accumulated s) 0) (nth 0 (checks s) 0)
  && forallb (fun i =>
       feq (nth i (accumulated s) 0)
           (fmul (nth (i - 1) (accumulated s) 0) (nth i (checks s) 0)))
     (seq 1 53)
  && feq (isPrime s) (nth 53 (accumulated s) 0).
End SimplePrimalityTest.

(** Every number from 2 to 256 is in the table or has a smaller table
    entry as a divisor. *)
Definition table_covers (d : Z) : bool :=
  existsb (Z.eqb d) SimplePrimalityTest.primes
  || existsb (fun pr => (pr <? d) && (d mod pr =? 0)) SimplePrimalityTest.primes.

(** template RSASetupVerifier().  The Python f-string inserts
    [self.min_value] and [self.max_value] into the template text; they are
    the two parameters here.  The comparators are instantiated at 16 bits
    whatever the bit length. *)
Module RSASetupVerifier.
Record signals := {
  p : Z; q : Z; n : Z;
  validP : Z; validQ : Z;
  geP : GreaterEqThan.signals; leP : LessEqThan.signals;
  geQ : GreaterEqThan.signals; leQ : LessEqThan.signals;
  eq : IsEqual.signals; different : Z;
  primeP : SimplePrimalityTest.signals;
  primeQ : SimplePrimalityTest.signals;
  valid : Z }.

Definition witness (min_value max_value : Z) (p q : Z) : signals :=
  let n := fmul p q in
  let geP := GreaterEqThan.witness 16 (p, fconst min_value) in
  let leP := LessEqThan.witness 16 (p, fconst max_value) in
  let validP := fmul (GreaterEqThan.out geP) (LessEqThan.out leP) in
  let geQ := GreaterEqThan.witness 16 (q, fconst min_value) in
  let leQ := LessEqThan.witness 16 (q, fconst max_value) in
  let validQ := fmul (GreaterEqThan.out geQ) (LessEqThan.out leQ) in
  let eq := IsEqual.witness (p, q) in
  let different := fsub 1 (IsEqual.out eq) in
  let primeP := SimplePrimalityTest.witness p in
  let primeQ := SimplePrimalityTest.witness q in
  let valid :=
    fmul (fmul (fmul (fmul validP validQ) different)
               (SimplePrimalityTest.isPrime primeP))
         (SimplePrimalityTest.isPrime primeQ) in
  {| p := p; q := q; n := n; validP := validP; validQ := validQ;
     geP := geP; leP := leP; geQ := geQ; leQ := leQ;
     eq := eq; different := different;
     primeP := primeP; primeQ := primeQ; valid := valid |}.

Definition constraints (min_value max_value : Z) (s : signals) : bool :=
  (* n <== p * q; *)
  feq (n s) (fmul (p s) (q s))
  (* geP.in[0] <== p; geP.in[1] <== min_value; *)
  && feq (fst (GreaterEqThan.in_ (geP s))) (p s)
  && feq (snd (GreaterEqThan.in_ (geP s))) (fconst min_value)
  && GreaterEqThan.constraints 16 (geP s)
  (* leP.in[0] <== p; leP.in[1] <== max_value; *)
  && feq (fst (LessEqThan.in_ (leP s))) (p s)
  && feq (snd (LessEqThan.in_ (leP s))) (fconst max_value)
  && LessEqThan.constraints 16 (leP s)
  (* validP <== geP.out * leP.out; *)
  && feq (validP s) (fmul (GreaterEqThan.out (geP s)) (LessEqThan.out (leP s)))
  && feq (fst (GreaterEqThan.in_ (geQ s))) (q s)
  && feq (snd (GreaterEqThan.in_ (geQ s))) (fconst min_value)
  && GreaterEqThan.constraints 16 (geQ s)
  && feq (fst (LessEqThan.in_ (leQ s))) (q s)
  && feq (snd (LessEqThan.in_ (leQ s))) (fconst max_value)
  && LessEqThan.constraints 16 (leQ s)
  (* validQ <== geQ.out * leQ.out; *)
  && feq (validQ s) (fmul (GreaterEqThan.out (geQ s)) (LessEqThan.out (leQ s)))
  (* eq.in[0] <== p; eq.in[1] <== q; different <== 1 - eq.out; *)
  && feq (fst (IsEqual.in_ (eq s))) (p s)
  && feq (snd (IsEqual.in_ (eq s))) (q s)
  && IsEqual.constraints (eq s)
  && feq (different s) (fsub 1 (IsEqual.out (eq s)))
  (* primeP.n <== p; primeQ.n <== q; *)
  && feq (SimplePrimalityTest.n (primeP s)) (p s)
  && SimplePrimalityTest.constraints (primeP s)
  && feq (SimplePrimalityTest.n (primeQ s)) (q s)
  && SimplePrimalityTest.constraints (primeQ s)
  (* valid <== validP * validQ * different * primeP.isPrime * primeQ.isPrime; *)
  && feq (valid s)
       (fmul (fmul (fmul (fmul (validP s) (validQ s)) (different s))
                   (SimplePrimalityTest.isPrime (primeP s)))
             (SimplePrimalityTest.isPrime (primeQ s)))
  (* valid === 1; *)
  && feq (valid s) 1.
End RSASetupVerifier.

(** ** The Python driver, class ZKRSAVerifier

    Python integers are [Z].  In [_is_prime], [int(n**0.5)] is the integer
    square root [Z.sqrt n]: that is what the truncated double power is for
    every n below 2^32.  For larger integers the double power is
    inexact, and float(n) raises OverflowError from 2^1024 - 2^970 on:
    [_is_prime_float], which [generate_proof] calls, is the evaluation on
    every integer, with the truncated double power as a parameter.
    [2**(bit_length - 1)] is modelled for bit lengths of at least 1, where
    it is an integer.  Console output is not modelled; printing an
    operand raises nothing on the integers float accepts. *)
Module ZKRSAVerifier.

Record self_t := { bit_length : Z; min_value : Z; max_value : Z }.

(** __init__(self, bit_length=16), without the project setup it starts. *)
Definition __init__ (bit_length : Z) : self_t :=
  {| bit_length := bit_length;
     min_value := 2 ^ (bit_length - 1);
     max_value := 2 ^ bit_length - 1 |}.

(** The constraint system and the witness generator that circom builds
    from the text written by create_circuits. *)
Definition circuit_constraints (self : self_t) : RSASetupVerifier.signals -> bool :=
  RSASetupVerifier.constraints (min_value self) (max_value self).
Definition circuit_witness (self : self_t) : Z -> Z -> RSASetupVerifier.signals :=
  RSASetupVerifier.witness (min_value self) (max_value self).

(** range(start, stop, step) for a positive step. *)
Definition range (start stop step : Z) : list Z :=
  map (fun k => start + step * Z.of_nat k)
      (seq 0 (Z.to_nat ((stop - start + step - 1) / step))).

(** for i in l: if n % i == 0: return False
    return True *)
Fixpoint for_divisors (n : Z) (l : list Z) : bool :=
  match l with
  | [] => true
  | i :: rest => if n mod i =? 0 then false else for_divisors n rest
  end.

(** The value _is_prime(n) returns for every n below 2^32, where
    int(n**0.5) is the integer square root. *)
Definition _is_prime (n : Z) : bool :=
  if n <? 2 then false
  else if n =? 2 then true
  else if n mod 2 =? 0 then false
  else for_divisors n (range 3 (Z.sqrt n + 1) 2).

(** The while loop of find_16bit_primes; [None] when the fuel runs out
    before the loop condition fails.  The numbers tested are at most
    max_value. *)
Fixpoint find_loop (fuel : nat) (self : self_t) (count : Z)
         (primes : list Z) (n : Z) : option (list Z) :=
  let continue := (Z.of_nat (length primes) <? count) && (n <=? max_value self) in
  match fuel with
  | O => if continue then None else Some primes
  | S fuel' =>
      if continue then
        let primes' := if _is_prime n then primes ++ [n] else primes in
        find_loop fuel' self count primes' (n + (if n >? 2 then 2 else 1))
      else Some primes
  end.

(** n grows by at least 1 per iteration and the loop stops above
    max_value: max_value - min_value + 1 iterations are enough. *)
Definition find_16bit_primes (self : self_t) (count : Z) : option (list Z) :=
  find_loop (Z.to_nat (max_value self - min_value self + 1)) self count []
            (min_value self).

(** *** generate_proof: exceptions and external effects *)

Inductive exn :=
| ValueError (msg : string)        (* ValueError or one of its subclasses *)
| OverflowError (msg : string)
| OtherError (cls msg : string).   (* any other class: OSError, IndexError, ... *)

Inductive effect :=
| WriteInput (p q : string)   (* json.dump({"p": str(p), "q": str(q)}) to build/input.json *)
| Chdir (dir : string)
| Subprocess (cmd : string)
| ReadJson (path : string)
| SaveProof (path : string).

(** A computation appends to the trace of effects and returns a value or
    raises. *)
Definition M (A : Type) : Type := list effect -> (exn + A) * list effect.

Definition ret {A} (a : A) : M A := fun t => (inr a, t).
Definition bind {A B} (m : M A) (k : A -> M B) : M B :=
  fun t => match m t with
           | (inl e, t') => (inl e, t')
           | (inr a, t') => k a t'
           end.
Definition raise {A} (e : exn) : M A := fun t => (inl e, t).
Definition perform (e : effect) : M unit := fun t => (inr tt, t ++ [e]).
(** The value of an expression, or the exception it raises. *)
Definition eval {A} (r : exn + A) : M A := fun t => (r, t).

Notation "x <- m ;; k" := (bind m (fun x => k))
  (at level 61, m at next level, right associativity).
Notation "m ;; k" := (bind m (fun _ => k))
  (at level 61, right associativity).

(** str(z) of a Python integer. *)
Definition str (z : Z) : string := NilZero.string_of_int (Z.to_int z).

Definition witness_command : string :=
  "node rsa_verifier_js/generate_witness.js rsa_verifier_js/rsa_verifier.wasm input.json witness.wtns".
Definition prove_command : string :=
  "snarkjs groth16 prove circuit_0000.zkey witness.wtns proof.json public.json".

(** float(n), the first step of n**0.5 on an integer: the conversion
    rounds to the nearest double and raises OverflowError when that is
    beyond the largest one, 2^1024 - 2^971, that is from 2^1024 - 2^970
    on. *)
Definition float_overflows (n : Z) : bool := 2 ^ 1024 - 2 ^ 970 <=? n.

Section GenerateProof.
(** What the outside world answers for inputs p and q.  The content of
    proof.json; what int(public[0]) gives on the content of public.json,
    an integer or the exception it raises; the clock reading that names
    the saved proof; the exception, if any, with which a step on the file
    system or a tool fails; and int(n**0.5) for an n that float accepts,
    the truncated double power of the platform. *)
Variable Proof : Type.
Variable proof_json : Z -> Z -> Proof.
Variable public_json : Z -> Z -> exn + Z.
Variable clock : Z.
Variable failure : effect -> option exn.
Variable isqrt_float : Z -> Z.

(** self._is_prime(n) as the interpreter evaluates it. *)
Definition _is_prime_float (n : Z) : exn + bool :=
  if n <? 2 then inr false
  else if n =? 2 then inr true
  else if n mod 2 =? 0 then inr false
  else if float_overflows n then
    inl (OverflowError "int too large to convert to float")
  else inr (for_divisors n (range 3 (isqrt_float n + 1) 2)).

(** A step on the file system or a tool: recorded, then its failure
    raised if it has one. *)
Definition attempt (e : effect) : M unit :=
  perform e ;;
  match failure e with
  | Some x => raise x
  | None => ret tt
  end.

Definition generate_proof (self : self_t) (p q : Z) : M (Proof * Z) :=
  (* Validate inputs: not self._is_prime(p) or not self._is_prime(q) *)
  prime_p <- eval (_is_prime_float p) ;;
  not_both <- (if negb prime_p then ret true
               else (prime_q <- eval (_is_prime_float q) ;; ret (negb prime_q))) ;;
  if (not_both : bool) then
    raise (ValueError "Both p and q must be prime")
  else if p =? q then
    raise (ValueError "p and q must be different")
  else if negb ((min_value self <=? p) && (p <=? max_value self)) then
    raise (ValueError ("p must be a " ++ str (bit_length self) ++ "-bit number"))
  else if negb ((min_value self <=? q) && (q <=? max_value self)) then
    raise (ValueError ("q must be a " ++ str (bit_length self) ++ "-bit number"))
  else
    attempt (WriteInput (str p) (str q)) ;;
    attempt (Chdir "build") ;;
    (* Generate witness *)
    attempt (Subprocess witness_command) ;;
    (* Generate proof *)
    attempt (Subprocess prove_command) ;;
    attempt (ReadJson "proof.json") ;;
    attempt (ReadJson "public.json") ;;
    attempt (Chdir "..") ;;
    let proof := proof_json p q in
    n <- eval (public_json p q) ;;
    attempt (SaveProof ("proofs/proof_" ++ str clock ++ ".json")) ;;
    ret (proof, n).
End GenerateProof.


(** *** The conditions generate_proof validates *)

Definition in_range (self : self_t) (x : Z) : Prop :=
  min_value self <= x <= max_value self.

(** The conditions whose violation generate_proof reports. *)
Definition rejected (self : self_t) (p q : Z) : Prop :=
  _is_prime p = false \/ _is_prime q = false \/ p = q
  \/ ~ in_range self p \/ ~ in_range self q.




End ZKRSAVerifier.

(** ** Assignments other than the honest one *)

(** An assignment to ModulusCheck that picks the output: remainder is the
    wanted flag (0 or 1) and quotient is (value - remainder) / modulus in
    the field. *)
Definition chosen_ModulusCheck (value modulus flag : Z) : ModulusCheck.signals :=
  let z := IsZero.witness flag in
  {| ModulusCheck.value := value; ModulusCheck.modulus := modulus;
     ModulusCheck.quotient := fdiv (fsub value flag) modulus;
     ModulusCheck.remainder := flag; ModulusCheck.isZero := z;
     ModulusCheck.isNotDivisible := fsub 1 (IsZero.out z) |}.

(** The assignment to SimplePrimalityTest in which every ModulusCheck
    reports "not divisible". *)
Definition chosen_SimplePrimalityTest (x : Z) : SimplePrimalityTest.signals :=
  let mcs := map (fun pr => chosen_ModulusCheck x (fconst pr) 1)
                 SimplePrimalityTest.primes in
  let cs := map ModulusCheck.isNotDivisible mcs in
  let acc := SimplePrimalityTest.accumulation cs in
  {| SimplePrimalityTest.n := x; SimplePrimalityTest.modChecks := mcs;
     SimplePrimalityTest.checks := cs; SimplePrimalityTest.accumulated := acc;
     SimplePrimalityTest.isPrime := nth 53 acc 0 |}.

(** The honest witness of RSASetupVerifier with the two primality gadgets
    replaced by the assignment above. *)
Definition chosen_RSASetupVerifier (min_value max_value p q : Z)
  : RSASetupVerifier.signals :=
  let w := RSASetupVerifier.witness min_value max_value p q in
  let primeP := chosen_SimplePrimalityTest p in
  let primeQ := chosen_SimplePrimalityTest q in
  {| RSASetupVerifier.p := p; RSASetupVerifier.q := q;
     RSASetupVerifier.n := RSASetupVerifier.n w;
     RSASetupVerifier.validP := RSASetupVerifier.validP w;
     RSASetupVerifier.validQ := RSASetupVerifier.validQ w;
     RSASetupVerifier.geP := RSASetupVerifier.geP w;
     RSASetupVerifier.leP := RSASetupVerifier.leP w;
     RSASetupVerifier.geQ := RSASetupVerifier.geQ w;
     RSASetupVerifier.leQ := RSASetupVerifier.leQ w;
     RSASetupVerifier.eq := RSASetupVerifier.eq w;
     RSASetupVerifier.different := RSASetupVerifier.different w;
     RSASetupVerifier.primeP := primeP; RSASetupVerifier.primeQ := primeQ;
     RSASetupVerifier.valid :=
       fmul (fmul (fmul (fmul (RSASetupVerifier.validP w) (RSASetupVerifier.validQ w))
                        (RSASetupVerifier.different w))
                  (SimplePrimalityTest.isPrime primeP))
            (SimplePrimalityTest.isPrime primeQ) |}.

(** ** Project setup, proof verification and the demonstration

    The methods of ZKRSAVerifier that act on the file system, the network
    and the external tools, and run_demo.  What the outside world answers
    is a parameter: whether the powers-of-tau file is already there,
    whether the download from a URL succeeds (any exception of the try
    block counts as failure, as except Exception does), the return code of
    circom, the standard output of snarkjs verify; with the parameters
    of generate_proof.  Creating directories and writing files succeeds;
    console output is not modelled. *)
Module Driver.

Inductive exception :=
| Exception (msg : string)              (* raise Exception(msg) *)
| IndexError (msg : string)             (* primes[i] out of range *)
| Validation (e : ZKRSAVerifier.exn).   (* an exception of generate_proof *)

Inductive event :=
| Mkdir (path : string)
| WriteCircuit (path : string) (min_value max_value : Z)
| PathExists (path : string)
| UrlOpen (url : string)
| WriteJson (path : string)
| Effect (e : ZKRSAVerifier.effect).

Definition D (A : Type) : Type := list event -> (exception + A) * list event.

Definition ret {A} (a : A) : D A := fun t => (inr a, t).
Definition bind {A B} (m : D A) (k : A -> D B) : D B :=
  fun t => match m t with
           | (inl e, t') => (inl e, t')
           | (inr a, t') => k a t'
           end.
Definition raise {A} (e : exception) : D A := fun t => (inl e, t).
Definition perform (e : event) : D unit := fun t => (inr tt, t ++ [e]).

Notation "x <- m ;; k" := (bind m (fun x => k))
  (at level 61, m at next level, right associativity).
Notation "m ;; k" := (bind m (fun _ => k))
  (at level 61, right associativity).

(** A method of the validation layer run inside the driver. *)
Definition lift {A} (m : ZKRSAVerifier.M A) : D A :=
  fun t => match m [] with
           | (inl e, t') => (inl (Validation e), t ++ map Effect t')
           | (inr a, t') => (inr a, t ++ map Effect t')
           end.




Definition ptau_path : string := "build/pot14_final.ptau".
Definition urls : list string :=
  ["https://hermez.s3-eu-west-1.amazonaws.com/powersOfTau28_hez_final_14.ptau"%string;
   "https://storage.googleapis.com/zkevm/ptau/powersOfTau28_hez_final_14.ptau"%string;
   "https://github.com/iden3/snarkjs/raw/master/build/powersOfTau12_final.ptau"%string].

Definition circom_command : string :=
  "circom ../circuits/rsa_verifier.circom --r1cs --wasm --sym".
Definition setup_command : string :=
  "snarkjs groth16 setup rsa_verifier.r1cs pot14_final.ptau circuit_0000.zkey".
Definition export_command : string :=
  "snarkjs zkey export verificationkey circuit_0000.zkey verification_key.json".

Section World.
Variable Proof : Type.
Variable proof_json : Z -> Z -> Proof.
Variable public_json : Z -> Z -> ZKRSAVerifier.exn + Z.
Variable clock : Z.
Variable failure : ZKRSAVerifier.effect -> option ZKRSAVerifier.exn.
Variable isqrt_float : Z -> Z.
Variable ptau_exists : bool.
Variable fetch : string -> bool.
Variable circom_returncode : Z.
Variable verify_stdout : Proof -> Z -> string.

Definition create_circuits (self : ZKRSAVerifier.self_t) : D unit :=
  perform (WriteCircuit "circuits/rsa_verifier.circom"
             (ZKRSAVerifier.min_value self) (ZKRSAVerifier.max_value self)).

(** for url in urls: try: ... return  except Exception: continue.
    The result tells whether the loop was left by return. *)
Fixpoint try_urls (l : list string) : D bool :=
  match l with
  | [] => ret false
  | url :: rest =>
      perform (UrlOpen url) ;;
      if fetch url then ret true else try_urls rest
  end.

Definition download_ptau : D unit :=
  perform (PathExists ptau_path) ;;
  if ptau_exists then ret tt
  else
    downloaded <- try_urls urls ;;
    if downloaded then ret tt
    else raise (Exception "Could not download Powers of Tau file").

Definition compile_circuits : D unit :=
  perform (Effect (ZKRSAVerifier.Chdir "build")) ;;
  perform (Effect (ZKRSAVerifier.Subprocess circom_command)) ;;
  perform (Effect (ZKRSAVerifier.Chdir "..")) ;;
  if negb (circom_returncode =? 0) then
    raise (Exception "Circuit compilation failed")
  else ret tt.

Definition trusted_setup : D unit :=
  perform (Effect (ZKRSAVerifier.Chdir "build")) ;;
  perform (Effect (ZKRSAVerifier.Subprocess setup_command)) ;;
  perform (Effect (ZKRSAVerifier.Subprocess export_command)) ;;
  perform (Effect (ZKRSAVerifier.Chdir "..")).

Definition setup_project (self : ZKRSAVerifier.self_t) : D unit :=
  perform (Mkdir "circuits") ;;
  perform (Mkdir "build") ;;
  perform (Mkdir "proofs") ;;
  create_circuits self ;;
  download_ptau ;;
  compile_circuits ;;
  trusted_setup.

(** ZKRSAVerifier(bit_length): the fields, then the project setup. *)
Definition __init__ (bit_length : Z) : D ZKRSAVerifier.self_t :=
  let self := ZKRSAVerifier.__init__ bit_length in
  setup_project self ;;
  ret self.

Definition generate_proof (self : ZKRSAVerifier.self_t) (p q : Z) : D (Proof * Z) :=
  lift (ZKRSAVerifier.generate_proof Proof proof_json public_json clock
          failure isqrt_float self p q).


(** The list find_16bit_primes returns; its loop ends for every object
    and count, so the fuel of the model never runs out. *)
Definition find_16bit_primes (self : ZKRSAVerifier.self_t) (count : Z) : list Z :=
  match ZKRSAVerifier.find_16bit_primes self count with
  | Some primes => primes
  | None => []
  end.

End World.


End Driver.

(* ================================================================== *)
(** * Part II: properties *)
(* ================================================================== *)

(** ** The field modulus is prime *)

Section CertificateSoundness.
Import Certificate.

Lemma trial_sound fuel : forall d n, 0 < d -> trial fuel d n = true ->
  forall k, d <= k -> k * k <= n -> ~ (k | n).
Proof.
  induction fuel as [|f IH]; intros d n Hd H k Hk Hkk; simpl in H;
    [discriminate|].
  destruct (n <? d * d) eqn:E1.
  - apply Z.ltb_lt in E1. nia.
  - destruct (n mod d =? 0) eqn:E2; [discriminate|].
    apply Z.eqb_neq in E2.
    destruct (Z.eq_dec k d) as [->|Hne].
    + intros Hdiv. apply E2. apply Z.mod_divide; [lia|exact Hdiv].
    + apply (IH (d + 1) n); try lia. exact H.
Qed.

(** A proper divisor comes with a divisor below the square root. *)
Lemma small_factor n a : 1 < a < n -> (a | n) ->
  exists k, 1 < k /\ k * k <= n /\ (k | n).
Proof.
  intros Ha [b Hb].
  assert (1 < b) by nia.
  destruct (Z_le_gt_dec a b).
  - exists a. repeat split; try lia; try nia. exists b; exact Hb.
  - exists b. repeat split; try lia; try nia. exists a; lia.
Qed.

Lemma prime_check_sound n : prime_check n = true -> Z.prime n.
Proof.
  unfold prime_check. intros H. apply andb_true_iff in H as [H1 H2].
  apply Z.ltb_lt in H1. split; [exact H1|].
  intros a Ha Hdiv.
  destruct (small_factor n a Ha Hdiv) as (k & Hk1 & Hk2 & Hk3).
  exact (trial_sound _ 2 n ltac:(lia) H2 k ltac:(lia) Hk2 Hk3).
Qed.

Lemma prime_divisor : forall n, 1 < n -> exists q, Z.prime q /\ (q | n).
Proof.
  intros n Hn. assert (H0 : 0 <= n) by lia. revert Hn.
  pattern n. apply Z_lt_induction; [|exact H0].
  clear n H0. intros n IH Hn.
  destruct (prime_dec n) as [Hp|Hnp].
  - exists n. split; [apply prime_alt; exact Hp | apply Z.divide_refl].
  - destruct (not_prime_divide n Hn Hnp) as (d & Hd & Hdiv).
    destruct (IH d ltac:(lia) ltac:(lia)) as (q & Hq & Hqd).
    exists q. split; [exact Hq | eapply Z.divide_trans; eassumption].
Qed.

(** The exponents that send a to 1 modulo q are closed under gcd. *)
Lemma pow_gcd_one a q : 1 < q -> forall n, 0 <= n -> forall m, 0 <= m ->
  a ^ m mod q = 1 -> a ^ n mod q = 1 -> a ^ Z.gcd m n mod q = 1.
Proof.
  intros Hq n Hn. pattern n. apply Z_lt_induction; [|exact Hn].
  clear n Hn. intros n IH m Hm Ham Han.
  destruct (Z.eq_dec n 0) as [->|Hnz].
  - rewrite Z.gcd_0_r, Z.abs_eq by lia. exact Ham.
  - assert (Hn : 0 < n).
    { destruct (Z_lt_le_dec 0 n); [assumption|].
      assert (n < 0) by lia. rewrite Z.pow_neg_r in Han by lia.
      rewrite Z.mod_0_l in Han by lia. discriminate. }
    pose proof (Z.mod_pos_bound m n Hn) as Hb.
    rewrite Z.gcd_comm, <- (Z.gcd_mod m n) by lia. rewrite Z.gcd_comm.
    apply (IH (m mod n) ltac:(lia) n ltac:(lia) Han).
    assert (Hd : 0 <= m / n) by (apply Z.div_pos; lia).
    rewrite (Z.div_mod m n) in Ham by lia.
    rewrite Z.pow_add_r in Ham by nia.
    rewrite Z.pow_mul_r in Ham by lia.
    rewrite Z.mul_mod in Ham by lia.
    rewrite <- Z.mod_pow_l in Ham. rewrite Han in Ham.
    rewrite Z.pow_1_l in Ham by lia.
    rewrite (Z.mod_small 1 q) in Ham by lia.
    rewrite Z.mul_1_l, Z.mod_mod in Ham by lia. exact Ham.
Qed.

Lemma pow_divide_one a q g M : 1 < q -> 0 < g -> 0 <= M -> (g | M) ->
  a ^ g mod q = 1 -> a ^ M mod q = 1.
Proof.
  intros Hq Hg HM [k Hk] H. subst M.
  assert (0 <= k) by nia.
  rewrite Z.mul_comm, Z.pow_mul_r by lia.
  rewrite <- Z.mod_pow_l, H, Z.pow_1_l by lia. apply Z.mod_small; lia.
Qed.

(** If g divides p*M but not M, g carries every power of p that p*M has. *)
Lemma prime_power_divide p g M : Z.prime p -> (g | p * M) -> ~ (g | M) ->
  forall e, 0 <= e -> (p ^ e | p * M) -> (p ^ e | g).
Proof.
  intros Hp Hg HnM e He. pattern e. apply natlike_ind; [| |exact He].
  - intros _. rewrite Z.pow_0_r. apply Z.divide_1_l.
  - clear e He. intros e He IH Hdiv.
    rewrite Z.pow_succ_r in * by lia.
    assert (Hpe : (p ^ e | p * M)).
    { eapply Z.divide_trans; [|exact Hdiv]. apply Z.divide_factor_r. }
    destruct (IH Hpe) as [h Hh]. destruct Hg as [k Hk].
    pose proof (Z.prime_ge_2 _ Hp) as Hp2.
    assert (Hpos : 0 < p ^ e) by (apply Z.pow_pos_nonneg; lia).
    assert (Hphk : (p | h * k)).
    { destruct Hdiv as [c Hc]. exists c.
      apply (Z.mul_reg_l _ _ (p ^ e)); [lia|].
      transitivity (p * M); [subst g; rewrite Hk; ring | rewrite Hc; ring]. }
    apply Z.divide_prime_mul in Hphk; [|exact Hp].
    destruct Hphk as [[h' Hh'] | [k' Hk']].
    + exists h'. subst g h. ring.
    + exfalso. apply HnM. exists k'.
      apply (Z.mul_reg_l _ _ p); [lia|]. rewrite Hk, Hk'. ring.
Qed.

Lemma pock_item_sound N a p e q :
  1 < N -> Zpow_mod a (N - 1) N = 1 -> Z.prime p ->
  pock_item N a (p, e) = true ->
  Z.prime q -> (q | N) -> (p * p ^ e | q - 1).
Proof.
  intros HN Hpow Hp H Hq HqN. unfold pock_item in H.
  apply andb_true_iff in H as [H Hgcd]. apply andb_true_iff in H as [He Hmod].
  apply Z.leb_le in He. apply Z.eqb_eq in Hmod, Hgcd.
  pose proof (Z.prime_ge_2 _ Hp) as Hp2. pose proof (Z.prime_ge_2 _ Hq) as Hq2.
  assert (Hpe : 0 < p ^ e) by (apply Z.pow_pos_nonneg; lia).
  rewrite Zpow_mod_correct in Hpow, Hgcd by lia.
  apply Z.mod_divide in Hmod; [|nia].
  set (M := (N - 1) / p) in *.
  assert (HpM : N - 1 = p * M).
  { unfold M. apply Z.div_exact; [lia|]. apply Z.mod_divide; [lia|].
    eapply Z.divide_trans; [|exact Hmod]. apply Z.divide_factor_l. }
  assert (HM : 0 < M) by nia.
  assert (Hq1 : a ^ (N - 1) mod q = 1).
  { rewrite <- (Z.mod_mod_divide _ N q HqN), Hpow. apply Z.mod_small; lia. }
  assert (Haq : a mod q <> 0).
  { intros Ha0.
    rewrite <- Z.mod_pow_l, Ha0, Z.pow_0_l, Z.mod_0_l in Hq1 by lia.
    discriminate. }
  pose proof (Z.fermat_nz q a Hq Haq) as Hf.
  pose proof (pow_gcd_one a q ltac:(lia) (q - 1) ltac:(lia) (N - 1)
                ltac:(lia) Hq1 Hf) as Hg.
  set (g := Z.gcd (N - 1) (q - 1)) in *.
  assert (Hgpos : 0 < g).
  { pose proof (Z.gcd_nonneg (N - 1) (q - 1)) as Hnn. fold g in Hnn.
    destruct (Z.eq_dec g 0) as [Hg0|]; [|lia].
    apply Z.gcd_eq_0_l in Hg0. lia. }
  assert (HgM : ~ (g | M)).
  { intros HgM.
    pose proof (pow_divide_one a q g M ltac:(lia) Hgpos ltac:(lia) HgM Hg)
      as HaM.
    assert (Hd : (q | a ^ M mod N - 1)).
    { apply Z.mod_divide; [lia|].
      rewrite Zminus_mod, (Z.mod_mod_divide _ N q HqN), HaM.
      rewrite (Z.mod_small 1 q) by lia. reflexivity. }
    assert (Hq1' : (q | 1)).
    { rewrite <- Hgcd. apply Z.gcd_greatest; assumption. }
    apply Z.divide_1_r in Hq1'. lia. }
  assert (Hgdiv : (g | p * M)) by (rewrite <- HpM; apply Z.gcd_divide_l).
  assert (Hres : (p ^ (Z.succ e) | g)).
  { apply (prime_power_divide p g M Hp Hgdiv HgM); [lia|].
    rewrite Z.pow_succ_r by lia. rewrite <- HpM. exact Hmod. }
  rewrite Z.pow_succ_r in Hres by lia.
  eapply Z.divide_trans; [exact Hres|]. apply Z.gcd_divide_r.
Qed.

Lemma pock_F_divides N a cs q :
  1 < N -> Zpow_mod a (N - 1) N = 1 ->
  (forall c, In c cs -> Z.prime (fst c)) ->
  forallb (pock_item N a) cs = true ->
  Z.prime q -> (q | N) -> (pock_F cs | q - 1).
Proof.
  intros HN Hpow Hps Hall Hq HqN. induction cs as [|[p e] cs IH]; simpl.
  - apply Z.divide_1_l.
  - simpl in Hall. apply andb_true_iff in Hall as [Hc Hall].
    apply Z.lcm_least.
    + apply (pock_item_sound N a p e q); auto.
      apply (Hps (p, e)). left; reflexivity.
    + apply IH; auto. intros c Hc'. apply Hps. right; exact Hc'.
Qed.

Lemma pock_F_nonneg cs : 0 <= pock_F cs.
Proof. induction cs as [|[p e] cs IH]; simpl; [lia|apply Z.lcm_nonneg]. Qed.

(** Pocklington: when the factored part F of N-1 exceeds the square root
    of N, N is prime. *)
Theorem pocklington N a cs :
  (forall c, In c cs -> Z.prime (fst c)) ->
  pock_check N a cs = true -> Z.prime N.
Proof.
  intros Hps H. unfold pock_check in H.
  apply andb_true_iff in H as [H HF]. apply andb_true_iff in H as [H Hall].
  apply andb_true_iff in H as [HN Hpow].
  apply Z.ltb_lt in HN, HF. apply Z.eqb_eq in Hpow.
  split; [exact HN|]. intros d Hd Hdiv.
  destruct (small_factor N d Hd Hdiv) as (k & Hk1 & Hk2 & Hk3).
  destruct (prime_divisor k Hk1) as (q & Hq & Hqk).
  assert (HqN : (q | N)) by (eapply Z.divide_trans; eassumption).
  pose proof (pock_F_divides N a cs q HN Hpow Hps Hall Hq HqN) as HFq.
  pose proof (Z.prime_ge_2 _ Hq).
  assert (q <= k) by (apply Z.divide_pos_le; [lia|exact Hqk]).
  pose proof (pock_F_nonneg cs).
  assert (pock_F cs <= q - 1) by (apply Z.divide_pos_le; [lia|exact HFq]).
  nia.
Qed.

Ltac prime_by_trial :=
  apply prime_check_sound; vm_cast_no_check (eq_refl true).

(** The entries of a certificate are primes already established (in the
    context) or small enough for trial division. *)
Ltac prime_by_pocklington a cs :=
  apply (pocklington _ a cs);
  [ let c := fresh in let H := fresh in
    intros c H; simpl in H;
    repeat (destruct H as [<-|H];
            [simpl; first [assumption | prime_by_trial]|]);
    contradiction
  | vm_cast_no_check (eq_refl true)].

Lemma prime_639533339 : Z.prime 639533339.
Proof. prime_by_pocklington 2 [(1637, 0); (853, 0)]. Qed.

Lemma prime_65865678001877903 : Z.prime 65865678001877903.
Proof.
  pose proof prime_639533339.
  prime_by_pocklington 2 [(639533339, 0)].
Qed.

Lemma prime_13818364434197438864469338081 :
  Z.prime 13818364434197438864469338081.
Proof.
  pose proof prime_65865678001877903.
  prime_by_pocklington 2 [(65865678001877903, 0)].
Qed.

Lemma prime_12048837557 : Z.prime 12048837557.
Proof. prime_by_pocklington 2 [(93001, 0); (661, 0)]. Qed.

Lemma prime_5156902474397 : Z.prime 5156902474397.
Proof.
  pose proof prime_12048837557.
  prime_by_pocklington 2 [(12048837557, 0)].
Qed.

Lemma prime_1670836401704629 : Z.prime 1670836401704629.
Proof.
  pose proof prime_5156902474397.
  prime_by_pocklington 2 [(5156902474397, 0)].
Qed.

(** Fr - 1 = 2^28 * 3^2 * 13 * 29 * 983 * 11003 * 237073 * 405928799
    * 1670836401704629 * 13818364434197438864469338081; the last two
    factors multiply to more than the square root of Fr. *)
Theorem Fr_prime : Z.prime Fr.
Proof.
  pose proof prime_1670836401704629.
  pose proof prime_13818364434197438864469338081.
  prime_by_pocklington 2
    [(13818364434197438864469338081, 0); (1670836401704629, 0)].
Qed.

End CertificateSoundness.

Ltac split_and := repeat match goal with |- _ /\ _ => split end.

(** ** Arithmetic modulo Fr *)

Lemma Fr_bounds : 2 ^ 253 < Fr < 2 ^ 254.
Proof. split; reflexivity. Qed.

Lemma Fr_bits_spec : Fr_bits = Z.log2 Fr + 1.
Proof. reflexivity. Qed.

Lemma Fr_pos : 0 < Fr.
Proof.
  pose proof Fr_bounds. assert (0 < 2 ^ 253) by (apply Z.pow_pos_nonneg; lia).
  lia.
Qed.

(** A bound in the form linear arithmetic can use (2^128). *)
Lemma Fr_large : 340282366920938463463374607431768211456 < Fr.
Proof. reflexivity. Qed.

Lemma mod_Fr_eqm a : a mod Fr == a.
Proof. apply Zmod_eqm. Qed.

Lemma feq_iff a b : feq a b = true <-> a == b.
Proof. unfold feq, eqm. apply Z.eqb_eq. Qed.

Lemma fadd_eqm a b : fadd a b == a + b. Proof. apply mod_Fr_eqm. Qed.
Lemma fsub_eqm a b : fsub a b == a - b. Proof. apply mod_Fr_eqm. Qed.
Lemma fmul_eqm a b : fmul a b == a * b. Proof. apply mod_Fr_eqm. Qed.
Lemma fneg_eqm a : fneg a == - a. Proof. apply mod_Fr_eqm. Qed.
Lemma fconst_eqm a : fconst a == a. Proof. apply mod_Fr_eqm. Qed.

Lemma eqm_of_eq a b : a = b -> a == b.
Proof. intros ->. reflexivity. Qed.

(** Two canonical representatives of one class are equal. *)
Lemma eqm_small a b : 0 <= a < Fr -> 0 <= b < Fr -> a == b -> a = b.
Proof.
  unfold eqm. intros Ha Hb H. rewrite !Z.mod_small in H by lia. exact H.
Qed.

Lemma eqm_mod_small a b : 0 <= b < Fr -> a == b -> a mod Fr = b.
Proof. unfold eqm. intros Hb H. rewrite H. apply Z.mod_small; lia. Qed.

Lemma eqm_0_divide a : a == 0 <-> (Fr | a).
Proof.
  pose proof Fr_pos. unfold eqm. rewrite Z.mod_0_l by lia.
  apply Z.mod_divide; lia.
Qed.

(** Fr is prime: the field has no zero divisors. *)
Lemma eqm_zero_mul a b : a * b == 0 -> a == 0 \/ b == 0.
Proof.
  rewrite !eqm_0_divide. apply Z.divide_prime_mul. exact Fr_prime.
Qed.

Lemma one_not_zero : ~ (1 == 0).
Proof.
  pose proof Fr_bounds. unfold eqm.
  rewrite Z.mod_1_l, Z.mod_0_l by lia. discriminate.
Qed.

(** The boolean constraint b * (b - 1) === 0. *)
Lemma boolean_sound b :
  feq (fmul b (fsub b 1)) 0 = true -> b == 0 \/ b == 1.
Proof.
  rewrite feq_iff, fmul_eqm, fsub_eqm. intros H.
  apply eqm_zero_mul in H as [H|H]; [left; exact H|right].
  assert (E : b = (b - 1) + 1) by ring. rewrite E, H. reflexivity.
Qed.

Lemma boolean_complete b : b == 0 \/ b == 1 -> feq (fmul b (fsub b 1)) 0 = true.
Proof.
  rewrite feq_iff, fmul_eqm, fsub_eqm.
  intros [H|H]; rewrite H; reflexivity.
Qed.

Lemma invmod_Fr x : ~ (x == 0) -> x * Z.invmod x Fr == 1.
Proof.
  intros Hx. pose proof Fr_bounds.
  assert (Hx' : x mod Fr <> 0).
  { intros E. apply Hx. unfold eqm. rewrite E, Z.mod_0_l by lia. reflexivity. }
  pose proof (Z.invmod_prime x Fr Fr_prime Hx') as Hi.
  unfold eqm. rewrite Z.mul_comm, Hi, Z.mod_1_l by lia. reflexivity.
Qed.

Lemma fdiv_one x : ~ (x == 0) -> x * fdiv 1 x == 1.
Proof.
  intros Hx. unfold fdiv. rewrite mod_Fr_eqm, Z.mul_1_l.
  apply invmod_Fr; exact Hx.
Qed.

Lemma small_not_zero x : 0 < x < Fr -> ~ (x == 0).
Proof.
  intros Hx H. apply (eqm_small x 0) in H; lia.
Qed.

(** ** IsZero *)

Lemma IsZero_witness_out x : 0 <= x < Fr ->
  IsZero.out (IsZero.witness x) = if x =? 0 then 1 else 0.
Proof.
  intros Hx. pose proof Fr_large as HFr.
  unfold IsZero.witness; cbn [IsZero.out].
  destruct (x =? 0) eqn:E; cbn [negb].
  - apply Z.eqb_eq in E; subst x. apply eqm_mod_small; [lia|].
    rewrite fmul_eqm. unfold eqm; f_equal; ring.
  - apply Z.eqb_neq in E. apply eqm_mod_small; [lia|].
    rewrite fmul_eqm, fneg_eqm.
    assert (H : - x * fdiv 1 x = - (x * fdiv 1 x)) by ring.
    rewrite H, fdiv_one by (apply small_not_zero; lia). reflexivity.
Qed.

Lemma IsZero_witness_ok x : 0 <= x < Fr ->
  IsZero.constraints (IsZero.witness x) = true.
Proof.
  intros Hx. unfold IsZero.constraints.
  rewrite IsZero_witness_out by exact Hx.
  apply andb_true_iff; split.
  - rewrite <- (IsZero_witness_out x Hx). apply feq_iff. reflexivity.
  - apply feq_iff. rewrite fmul_eqm. cbn [IsZero.in_ IsZero.witness].
    destruct (x =? 0) eqn:E.
    + apply Z.eqb_eq in E; subst x. reflexivity.
    + rewrite Z.mul_0_r. reflexivity.
Qed.

(** Every satisfying assignment of IsZero computes the zero test. *)
Lemma IsZero_sound s : IsZero.constraints s = true ->
  (IsZero.in_ s == 0 -> IsZero.out s == 1)
  /\ (~ (IsZero.in_ s == 0) -> IsZero.out s == 0).
Proof.
  unfold IsZero.constraints. intros H. apply andb_true_iff in H as [H1 H2].
  apply feq_iff in H1, H2. rewrite fadd_eqm, fmul_eqm, fneg_eqm in H1.
  rewrite fmul_eqm in H2. split.
  - intros H0. rewrite H1, H0. reflexivity.
  - intros Hn. apply eqm_zero_mul in H2 as [H2|H2]; [contradiction|exact H2].
Qed.

(** ** Bit arrays *)

Lemma is_bit_mod b : is_bit b -> b mod Fr = 0 \/ b mod Fr = 1.
Proof.
  pose proof Fr_large as HFr. intros [H|H]; [left|right];
    apply eqm_mod_small; auto; lia.
Qed.

Lemma loop_eqm bs : forall e2 lc,
  Bits2Num.loop bs e2 lc == lc + e2 * bits_value bs.
Proof.
  induction bs as [|b bs IH]; intros e2 lc; cbn [Bits2Num.loop bits_value fold_right].
  - apply eqm_of_eq; ring.
  - rewrite IH, fadd_eqm, !fmul_eqm. fold (bits_value bs).
    rewrite (mod_Fr_eqm b). apply eqm_of_eq; ring.
Qed.

Lemma lc_eqm n bs : Bits2Num.lc n bs == bits_value (firstn n bs).
Proof.
  unfold Bits2Num.lc. rewrite loop_eqm. apply eqm_of_eq; ring.
Qed.

Lemma bits_value_bound bs : Forall is_bit bs ->
  0 <= bits_value bs < 2 ^ Z.of_nat (length bs).
Proof.
  induction 1 as [|b bs Hb _ IH]; cbn [bits_value fold_right length].
  - cbn. lia.
  - fold (bits_value bs). rewrite Nat2Z.inj_succ, Z.pow_succ_r by lia.
    apply is_bit_mod in Hb. lia.
Qed.

Lemma bits_value_app l1 l2 :
  bits_value (l1 ++ l2) = bits_value l1 + 2 ^ Z.of_nat (length l1) * bits_value l2.
Proof.
  induction l1 as [|b l1 IH]; cbn [app bits_value fold_right length].
  - change (Z.of_nat 0) with 0. rewrite Z.pow_0_r. fold (bits_value l2). lia.
  - fold (bits_value (l1 ++ l2)) (bits_value l1).
    rewrite IH, Nat2Z.inj_succ, Z.pow_succ_r by lia. ring.
Qed.

Lemma firstn_snoc_nth {A} (l : list A) n d : length l = S n ->
  l = firstn n l ++ [nth n l d].
Proof.
  revert n; induction l as [|a l IH]; intros n Hl; [discriminate|].
  destruct n as [|n]; cbn.
  - destruct l; [reflexivity|discriminate].
  - f_equal. apply IH. cbn in Hl. lia.
Qed.

(** The value of n+1 bits splits into the low n bits and the top bit. *)
Lemma bits_value_top bs n : length bs = S n ->
  bits_value bs = bits_value (firstn n bs) + 2 ^ Z.of_nat n * (nth n bs 0 mod Fr).
Proof.
  intros Hl. rewrite (firstn_snoc_nth bs n 0 Hl) at 1.
  rewrite bits_value_app, length_firstn, Hl, Nat.min_l by lia.
  cbn [bits_value fold_right]. f_equal. ring.
Qed.

Lemma Forall_firstn {A} (P : A -> Prop) n l : Forall P l -> Forall P (firstn n l).
Proof.
  revert l; induction n as [|n IH]; intros l H; cbn [firstn]; [constructor|].
  destruct H; constructor; auto.
Qed.

Lemma bits_value_top_bound bs n : length bs = S n -> Forall is_bit bs ->
  (nth n bs 0 == 1 -> 2 ^ Z.of_nat n <= bits_value bs < 2 ^ Z.of_nat (S n))
  /\ (nth n bs 0 == 0 -> 0 <= bits_value bs < 2 ^ Z.of_nat n).
Proof.
  intros Hl Hb. pose proof Fr_large as HFr.
  pose proof (bits_value_bound (firstn n bs) (Forall_firstn _ n _ Hb)) as Hlow.
  rewrite length_firstn, Hl, Nat.min_l in Hlow by lia.
  rewrite (bits_value_top bs n Hl).
  rewrite Nat2Z.inj_succ, Z.pow_succ_r by lia.
  split; intros Ht; apply eqm_mod_small in Ht; try lia; rewrite Ht; lia.
Qed.

(** *** The honest decomposition *)

Lemma bit_spec x i : Num2Bits.bit x i = (x / 2 ^ Z.of_nat i) mod 2.
Proof.
  pose proof Fr_large as HFr.
  unfold Num2Bits.bit, fand, fshr.
  rewrite Z.shiftr_div_pow2 by lia.
  change 1 with (Z.ones 1) at 1. rewrite Z.land_ones by lia.
  change (2 ^ 1) with 2.
  pose proof (Z.mod_pos_bound (x / 2 ^ Z.of_nat i) 2 ltac:(lia)).
  apply Z.mod_small; lia.
Qed.

Lemma bit_is_bit x i : is_bit (Num2Bits.bit x i).
Proof.
  rewrite bit_spec.
  pose proof (Z.mod_pos_bound (x / 2 ^ Z.of_nat i) 2 ltac:(lia)) as Hb.
  assert (E : (x / 2 ^ Z.of_nat i) mod 2 = 0 \/ (x / 2 ^ Z.of_nat i) mod 2 = 1) by lia.
  destruct E as [-> | ->]; [left|right]; reflexivity.
Qed.

Lemma bits_value_honest x n : forall k,
  bits_value (map (Num2Bits.bit x) (seq k n)) = (x / 2 ^ Z.of_nat k) mod 2 ^ Z.of_nat n.
Proof.
  pose proof Fr_large as HFr.
  induction n as [|n IH]; intros k; cbn [seq map bits_value fold_right].
  - cbn. rewrite Z.mod_1_r. reflexivity.
  - fold (bits_value (map (Num2Bits.bit x) (seq (S k) n))).
    rewrite IH, bit_spec.
    assert (Hp : 0 < 2 ^ Z.of_nat k) by (apply Z.pow_pos_nonneg; lia).
    assert (Hn : 0 < 2 ^ Z.of_nat n) by (apply Z.pow_pos_nonneg; lia).
    pose proof (Z.mod_pos_bound (x / 2 ^ Z.of_nat k) 2 ltac:(lia)).
    rewrite (Z.mod_small (_ mod 2) Fr) by lia.
    rewrite !Nat2Z.inj_succ, !Z.pow_succ_r by lia.
    rewrite (Z.mul_comm 2 (2 ^ Z.of_nat k)), <- Z.div_div by lia.
    rewrite Z.rem_mul_r by lia. reflexivity.
Qed.

Lemma feq_list_refl l : feq_list l l = true.
Proof.
  unfold feq_list. rewrite Nat.eqb_refl. cbn [andb].
  induction l as [|a l IH]; cbn; [reflexivity|].
  rewrite IH, andb_true_r. apply feq_iff. reflexivity.
Qed.

Lemma Num2Bits_witness_ok n x : 0 <= x < 2 ^ Z.of_nat n ->
  Num2Bits.constraints n (Num2Bits.witness n x) = true.
Proof.
  intros Hx. unfold Num2Bits.constraints, Num2Bits.witness, Bits2Num.constraints.
  cbn [Num2Bits.out Num2Bits.n2b Num2Bits.in_ Bits2Num.witness Bits2Num.in_ Bits2Num.out].
  rewrite !andb_true_iff. repeat split.
  - apply Nat.eqb_eq. rewrite length_map, length_seq. reflexivity.
  - apply forallb_forall. intros b Hb. apply in_map_iff in Hb as (i & <- & _).
    apply boolean_complete, bit_is_bit.
  - apply feq_list_refl.
  - apply Nat.eqb_eq. rewrite length_map, length_seq. reflexivity.
  - apply feq_iff. reflexivity.
  - apply feq_iff. rewrite lc_eqm.
    rewrite firstn_all2 by (rewrite length_map, length_seq; lia).
    rewrite bits_value_honest. change (Z.of_nat 0) with 0.
    rewrite Z.pow_0_r, Z.div_1_r.
    rewrite Z.mod_small by lia. reflexivity.
Qed.

Lemma feq_list_eqm l1 : forall l2, feq_list l1 l2 = true ->
  bits_value l1 = bits_value l2 /\ length l1 = length l2.
Proof.
  unfold feq_list.
  induction l1 as [|a l1 IH]; intros [|b l2] H; cbn in H; try discriminate.
  - split; reflexivity.
  - apply andb_true_iff in H as [Hl H]. apply andb_true_iff in H as [Hab H].
    destruct (IH l2) as [E1 E2]; [rewrite Hl, H; reflexivity|].
    apply feq_iff in Hab. unfold eqm in Hab.
    cbn [bits_value fold_right length]. fold (bits_value l1) (bits_value l2).
    rewrite Hab, E1, E2. split; reflexivity.
Qed.

(** Every satisfying assignment of Num2Bits(n) writes its input with n
    bits. *)
Lemma Num2Bits_sound n s : Num2Bits.constraints n s = true ->
  length (Num2Bits.out s) = n
  /\ Forall is_bit (Num2Bits.out s)
  /\ bits_value (Num2Bits.out s) == Num2Bits.in_ s
  /\ 0 <= bits_value (Num2Bits.out s) < 2 ^ Z.of_nat n.
Proof.
  unfold Num2Bits.constraints, Bits2Num.constraints. intros H.
  rewrite !andb_true_iff in H.
  destruct H as ((((Hlen & Hbool) & Hwire) & (Hlen2 & Hout)) & Hin).
  apply Nat.eqb_eq in Hlen, Hlen2. apply feq_iff in Hout, Hin.
  apply feq_list_eqm in Hwire as [Hv _].
  assert (Hbits : Forall is_bit (Num2Bits.out s)).
  { rewrite forallb_forall in Hbool. apply Forall_forall. intros b Hb.
    apply boolean_sound, Hbool, Hb. }
  split; [exact Hlen|]. split; [exact Hbits|]. split.
  - rewrite <- Hin, Hout, lc_eqm, firstn_all2 by lia. rewrite Hv. reflexivity.
  - rewrite <- Hlen. apply (bits_value_bound _ Hbits).
Qed.

(** ** Comparators *)

Lemma eqm_ex a b : a == b -> exists k, a = b + k * Fr.
Proof.
  pose proof Fr_pos as HFr. unfold eqm. intros Hab. exists (a / Fr - b / Fr).
  pose proof (Z.div_mod a Fr ltac:(lia)). pose proof (Z.div_mod b Fr ltac:(lia)).
  nia.
Qed.

Lemma pow2_pos n : 0 < 2 ^ Z.of_nat n.
Proof. apply Z.pow_pos_nonneg; lia. Qed.

(** 1 << n, as long as 2^n is a field element. *)
Lemma fshl_1 n : 2 ^ Z.of_nat n < Fr -> fshl 1 (Z.of_nat n) = 2 ^ Z.of_nat n.
Proof.
  intros Hn. pose proof Fr_bounds as HFr. pose proof (pow2_pos n).
  unfold fshl, Fr_mask, Fr_bits.
  rewrite Z.shiftl_1_l, Z.land_ones by lia.
  rewrite (Z.mod_small (2 ^ Z.of_nat n) (2 ^ 254)) by lia.
  apply Z.mod_small; lia.
Qed.

Lemma diff_small n a b : 2 ^ Z.of_nat (S n) <= Fr ->
  0 <= a < 2 ^ Z.of_nat n -> 0 <= b < 2 ^ Z.of_nat n ->
  LessThan.diff n (a, b) = a + 2 ^ Z.of_nat n - b.
Proof.
  intros Hn Ha Hb. rewrite Nat2Z.inj_succ, Z.pow_succ_r in Hn by lia.
  unfold LessThan.diff; cbn [fst snd].
  rewrite fshl_1 by lia. apply eqm_mod_small; [lia|].
  rewrite fadd_eqm. reflexivity.
Qed.

Lemma nth_bits x n i : (i < n)%nat ->
  nth i (map (Num2Bits.bit x) (seq 0 n)) 0 = Num2Bits.bit x i.
Proof.
  intros Hi.
  rewrite (nth_indep _ 0 (Num2Bits.bit x 0%nat))
    by (rewrite length_map, length_seq; exact Hi).
  rewrite map_nth, seq_nth by exact Hi. reflexivity.
Qed.

Lemma fsub_1_0 : fsub 1 0 = 1.
Proof. pose proof Fr_large. unfold fsub. apply Z.mod_small; lia. Qed.

Lemma fsub_1_1 : fsub 1 1 = 0.
Proof. pose proof Fr_large. unfold fsub. apply Z.mod_small; lia. Qed.

Lemma fmul_1_1 : fmul 1 1 = 1.
Proof. pose proof Fr_large. unfold fmul. apply Z.mod_small; lia. Qed.

(** The honest LessThan(n) decides a < b on n-bit operands, provided n+1
    bits fit in the field. *)
Lemma LessThan_witness_out n a b : 2 ^ Z.of_nat (S n) <= Fr ->
  0 <= a < 2 ^ Z.of_nat n -> 0 <= b < 2 ^ Z.of_nat n ->
  LessThan.out (LessThan.witness n (a, b)) = if a <? b then 1 else 0.
Proof.
  intros Hn Ha Hb. unfold LessThan.witness, Num2Bits.witness.
  cbn [LessThan.out Num2Bits.out].
  rewrite nth_bits by lia. rewrite bit_spec, diff_small by assumption.
  pose proof (pow2_pos n) as Hp.
  destruct (a <? b) eqn:E; [apply Z.ltb_lt in E|apply Z.ltb_ge in E].
  - rewrite Z.div_small by lia. rewrite Z.mod_0_l by lia. apply fsub_1_0.
  - assert (Hd : (a + 2 ^ Z.of_nat n - b) / 2 ^ Z.of_nat n = 1).
    { symmetry. apply (Z.div_unique _ _ 1 (a - b)); lia. }
    rewrite Hd. change (1 mod 2) with 1. apply fsub_1_1.
Qed.

Lemma LessThan_witness_ok n a b : 2 ^ Z.of_nat (S n) <= Fr ->
  0 <= a < 2 ^ Z.of_nat n -> 0 <= b < 2 ^ Z.of_nat n ->
  LessThan.constraints n (LessThan.witness n (a, b)) = true.
Proof.
  intros Hn Ha Hb. unfold LessThan.constraints.
  rewrite !andb_true_iff. repeat split.
  - apply feq_iff. reflexivity.
  - cbn [LessThan.witness LessThan.n2b]. apply Num2Bits_witness_ok.
    rewrite diff_small by assumption.
    rewrite Nat.add_1_r, Nat2Z.inj_succ, Z.pow_succ_r by lia. lia.
  - apply feq_iff. reflexivity.
Qed.

Lemma Forall_nth_bit bs i : Forall is_bit bs -> (i < length bs)%nat ->
  is_bit (nth i bs 0).
Proof.
  intros H Hi. rewrite Forall_forall in H. apply H. apply nth_In. exact Hi.
Qed.

(** Every satisfying assignment of LessThan(n): the number v written by the
    n+1 bits is congruent to in[0] + (1<<n) - in[1], and out is the
    complement of its top bit. *)
Lemma LessThan_sound n s : LessThan.constraints n s = true ->
  exists v, 0 <= v < 2 ^ Z.of_nat (S n)
    /\ v == fst (LessThan.in_ s) + fshl 1 (Z.of_nat n) - snd (LessThan.in_ s)
    /\ ((LessThan.out s == 1 /\ v < 2 ^ Z.of_nat n)
        \/ (LessThan.out s == 0 /\ 2 ^ Z.of_nat n <= v)).
Proof.
  unfold LessThan.constraints. intros H. rewrite !andb_true_iff in H.
  destruct H as ((Hin & Hnb) & Hout).
  apply feq_iff in Hin, Hout. rewrite fsub_eqm in Hout.
  apply Num2Bits_sound in Hnb as (Hlen & Hbits & Hv & Hbound).
  rewrite Nat.add_1_r in Hlen, Hbound.
  exists (bits_value (Num2Bits.out (LessThan.n2b s))).
  split; [exact Hbound|]. split.
  - rewrite Hv, Hin. unfold LessThan.diff. rewrite fsub_eqm, fadd_eqm. reflexivity.
  - destruct (bits_value_top_bound _ n Hlen Hbits) as [H1 H0].
    destruct (Forall_nth_bit _ n Hbits ltac:(lia)) as [Hb|Hb].
    + left. split; [rewrite Hout, Hb; reflexivity|]. apply H0; exact Hb.
    + right. split; [rewrite Hout, Hb; reflexivity|]. apply H1; exact Hb.
Qed.

Lemma GreaterEqThan_witness_out n a b : 2 ^ Z.of_nat (S n) <= Fr ->
  0 <= a < 2 ^ Z.of_nat n -> 0 <= b < 2 ^ Z.of_nat n ->
  GreaterEqThan.out (GreaterEqThan.witness n (a, b)) = if a <? b then 0 else 1.
Proof.
  intros. unfold GreaterEqThan.witness; cbn [GreaterEqThan.out fst snd].
  rewrite LessThan_witness_out by assumption.
  destruct (a <? b); [apply fsub_1_1|apply fsub_1_0].
Qed.

Lemma GreaterEqThan_witness_ok n a b : 2 ^ Z.of_nat (S n) <= Fr ->
  0 <= a < 2 ^ Z.of_nat n -> 0 <= b < 2 ^ Z.of_nat n ->
  GreaterEqThan.constraints n (GreaterEqThan.witness n (a, b)) = true.
Proof.
  intros. unfold GreaterEqThan.constraints.
  rewrite !andb_true_iff. repeat split; try (apply feq_iff; reflexivity).
  apply LessThan_witness_ok; assumption.
Qed.

Lemma LessEqThan_witness_out n a b : 2 ^ Z.of_nat (S n) <= Fr ->
  0 <= a < 2 ^ Z.of_nat n -> 0 <= b < 2 ^ Z.of_nat n ->
  LessEqThan.out (LessEqThan.witness n (a, b)) = if b <? a then 0 else 1.
Proof.
  intros. unfold LessEqThan.witness; cbn [LessEqThan.out fst snd].
  rewrite LessThan_witness_out by assumption.
  destruct (b <? a); [apply fsub_1_1|apply fsub_1_0].
Qed.

Lemma LessEqThan_witness_ok n a b : 2 ^ Z.of_nat (S n) <= Fr ->
  0 <= a < 2 ^ Z.of_nat n -> 0 <= b < 2 ^ Z.of_nat n ->
  LessEqThan.constraints n (LessEqThan.witness n (a, b)) = true.
Proof.
  intros. unfold LessEqThan.constraints.
  rewrite !andb_true_iff. repeat split; try (apply feq_iff; reflexivity).
  apply LessThan_witness_ok; assumption.
Qed.

(** Every satisfying assignment of GreaterEqThan(n): out is the top bit of
    the (n+1)-bit number congruent to in[0] + (1<<n) - in[1]. *)
Lemma GreaterEqThan_sound n s : GreaterEqThan.constraints n s = true ->
  exists v, 0 <= v < 2 ^ Z.of_nat (S n)
    /\ v == fst (GreaterEqThan.in_ s) + fshl 1 (Z.of_nat n) - snd (GreaterEqThan.in_ s)
    /\ ((GreaterEqThan.out s == 0 /\ v < 2 ^ Z.of_nat n)
        \/ (GreaterEqThan.out s == 1 /\ 2 ^ Z.of_nat n <= v)).
Proof.
  unfold GreaterEqThan.constraints. intros H. rewrite !andb_true_iff in H.
  destruct H as (((H0 & H1) & Hlt) & Hout).
  apply feq_iff in H0, H1, Hout. rewrite fsub_eqm in Hout.
  apply LessThan_sound in Hlt as (v & Hb & Hv & Hcase).
  exists v. split; [exact Hb|]. split.
  - rewrite Hv, H0, H1. reflexivity.
  - destruct Hcase as [[Ho Hlt]|[Ho Hge]]; [left|right]; split; auto;
      rewrite Hout, Ho; reflexivity.
Qed.

Lemma LessEqThan_sound n s : LessEqThan.constraints n s = true ->
  exists v, 0 <= v < 2 ^ Z.of_nat (S n)
    /\ v == snd (LessEqThan.in_ s) + fshl 1 (Z.of_nat n) - fst (LessEqThan.in_ s)
    /\ ((LessEqThan.out s == 0 /\ v < 2 ^ Z.of_nat n)
        \/ (LessEqThan.out s == 1 /\ 2 ^ Z.of_nat n <= v)).
Proof.
  unfold LessEqThan.constraints. intros H. rewrite !andb_true_iff in H.
  destruct H as (((H0 & H1) & Hlt) & Hout).
  apply feq_iff in H0, H1, Hout. rewrite fsub_eqm in Hout.
  apply LessThan_sound in Hlt as (v & Hb & Hv & Hcase).
  exists v. split; [exact Hb|]. split.
  - rewrite Hv, H0, H1. reflexivity.
  - destruct Hcase as [[Ho Hlt]|[Ho Hge]]; [left|right]; split; auto;
      rewrite Hout, Ho; reflexivity.
Qed.

(** ** IsEqual *)

Lemma IsEqual_witness_out a b : 0 <= a < Fr -> 0 <= b < Fr ->
  IsEqual.out (IsEqual.witness (a, b)) = if a =? b then 1 else 0.
Proof.
  intros Ha Hb. pose proof Fr_pos.
  unfold IsEqual.witness; cbn [IsEqual.out fst snd].
  rewrite IsZero_witness_out by (apply Z.mod_pos_bound; lia).
  destruct (a =? b) eqn:E; [apply Z.eqb_eq in E|apply Z.eqb_neq in E].
  - subst b. unfold fsub. rewrite Z.sub_diag, Z.mod_0_l by lia. reflexivity.
  - assert (Hne : fsub a b <> 0).
    { unfold fsub. intros H0. apply Z.mod_divide in H0; [|lia].
      destruct H0 as [k Hk].
      assert (Hk3 : k <= -1 \/ k = 0 \/ 1 <= k) by lia.
      destruct Hk3 as [Hk3|[Hk3|Hk3]]; nia. }
    apply Z.eqb_neq in Hne. rewrite Hne. reflexivity.
Qed.

Lemma IsEqual_witness_ok a b :
  IsEqual.constraints (IsEqual.witness (a, b)) = true.
Proof.
  pose proof Fr_pos. unfold IsEqual.constraints.
  rewrite !andb_true_iff. repeat split; try (apply feq_iff; reflexivity).
  apply IsZero_witness_ok. apply Z.mod_pos_bound; lia.
Qed.

(** ** ModulusCheck *)

Lemma ModulusCheck_witness_out n x m : 0 < m < Fr ->
  ModulusCheck.isNotDivisible (ModulusCheck.witness n x m)
  = if x mod m =? 0 then 0 else 1.
Proof.
  intros Hm. unfold ModulusCheck.witness; cbn [ModulusCheck.isNotDivisible].
  pose proof (Z.mod_pos_bound x m ltac:(lia)) as Hr.
  unfold fmod. rewrite IsZero_witness_out by lia.
  destruct (x mod m =? 0); [apply fsub_1_1|apply fsub_1_0].
Qed.

Lemma ModulusCheck_witness_ok n x m : 0 < m < Fr ->
  ModulusCheck.constraints n (ModulusCheck.witness n x m) = true.
Proof.
  intros Hm. pose proof (Z.mod_pos_bound x m ltac:(lia)) as Hr.
  unfold ModulusCheck.constraints. rewrite !andb_true_iff. repeat split.
  - apply feq_iff. cbn [ModulusCheck.witness ModulusCheck.value
      ModulusCheck.quotient ModulusCheck.modulus ModulusCheck.remainder].
    rewrite fadd_eqm, fmul_eqm. unfold fidiv, fmod. apply eqm_of_eq.
    rewrite (Z.div_mod x m) at 1 by lia. ring.
  - apply feq_iff. reflexivity.
  - apply IsZero_witness_ok. unfold fmod. lia.
  - apply feq_iff. reflexivity.
Qed.

(** ** SimplePrimalityTest *)

Lemma primes_range : Forall (fun pr => 1 < pr <= 251) SimplePrimalityTest.primes.
Proof.
  unfold SimplePrimalityTest.primes. repeat (constructor; [lia|]). constructor.
Qed.

Lemma primes_length : length SimplePrimalityTest.primes = 54%nat.
Proof. reflexivity. Qed.

Lemma fconst_prime pr : In pr SimplePrimalityTest.primes ->
  fconst pr = pr /\ 0 < pr < Fr.
Proof.
  intros Hin. pose proof Fr_large as HFr.
  pose proof primes_range as Hr. rewrite Forall_forall in Hr.
  specialize (Hr pr Hin). split; [|lia]. apply Z.mod_small; lia.
Qed.

Lemma nth_map_default {A B} (f : A -> B) l i d d' : (i < length l)%nat ->
  nth i (map f l) d' = f (nth i l d).
Proof.
  intros Hi. rewrite (nth_indep _ d' (f d)) by (rewrite length_map; exact Hi).
  apply map_nth.
Qed.

Lemma forallb_map {A B} (f : B -> bool) (g : A -> B) l :
  forallb f (map g l) = forallb (fun a => f (g a)) l.
Proof. induction l as [|a l IH]; cbn; [reflexivity|rewrite IH; reflexivity]. Qed.

Lemma forallb_pointwise {A} (f g : A -> bool) l :
  (forall a, f a = g a) -> forallb f l = forallb g l.
Proof.
  intros H. induction l as [|a l IH]; cbn; [reflexivity|].
  rewrite H, IH. reflexivity.
Qed.

Lemma length_accumulate cs : forall prev,
  length (SimplePrimalityTest.accumulate prev cs) = length cs.
Proof. induction cs as [|c cs IH]; intros prev; cbn; [|rewrite IH]; reflexivity. Qed.

Lemma length_accumulation cs :
  length (SimplePrimalityTest.accumulation cs) = length cs.
Proof. destruct cs; cbn; [|rewrite length_accumulate]; reflexivity. Qed.

Lemma accumulate_step cs : forall prev j, (j < length cs)%nat ->
  nth j (SimplePrimalityTest.accumulate prev cs) 0
  = fmul (nth j (prev :: SimplePrimalityTest.accumulate prev cs) 0) (nth j cs 0).
Proof.
  induction cs as [|c cs IH]; intros prev j Hj; cbn in Hj; [lia|].
  destruct j as [|j]; cbn [SimplePrimalityTest.accumulate nth]; [reflexivity|].
  apply IH. lia.
Qed.

(** accumulated[i] = accumulated[i-1] * checks[i] in the honest witness. *)
Lemma accumulation_step cs i : (1 <= i < length cs)%nat ->
  nth i (SimplePrimalityTest.accumulation cs) 0
  = fmul (nth (i - 1) (SimplePrimalityTest.accumulation cs) 0) (nth i cs 0).
Proof.
  intros Hi. destruct cs as [|c0 rest]; cbn in Hi; [lia|].
  destruct i as [|j]; [lia|]. cbn [SimplePrimalityTest.accumulation].
  replace (S j - 1)%nat with j by lia.
  change (nth (S j) (c0 :: SimplePrimalityTest.accumulate c0 rest) 0)
    with (nth j (SimplePrimalityTest.accumulate c0 rest) 0).
  change (nth (S j) (c0 :: rest) 0) with (nth j rest 0).
  apply accumulate_step. lia.
Qed.

Lemma accumulate_last rest : forall prev,
  zero_or_one prev -> Forall zero_or_one rest ->
  nth (length rest) (prev :: SimplePrimalityTest.accumulate prev rest) 0
  = if (prev =? 1) && forallb (fun c => c =? 1) rest then 1 else 0.
Proof.
  pose proof Fr_large as HFr.
  induction rest as [|c rest IH]; intros prev Hp Hr.
  - cbn. destruct Hp as [-> | ->]; reflexivity.
  - inversion Hr as [|? ? Hc Hr']; subst.
    cbn [length SimplePrimalityTest.accumulate forallb].
    change (nth (S (length rest)) (prev :: ?l) 0) with (nth (length rest) l 0).
    assert (Hm : fmul prev c = if (prev =? 1) && (c =? 1) then 1 else 0).
    { destruct Hp as [-> | ->], Hc as [-> | ->]; vm_compute; reflexivity. }
    rewrite IH; [|rewrite Hm; destruct ((prev =? 1) && (c =? 1)); [right|left]; reflexivity|exact Hr'].
    rewrite Hm. destruct Hp as [-> | ->], Hc as [-> | ->]; reflexivity.
Qed.

Lemma accumulation_last cs : cs <> [] -> Forall zero_or_one cs ->
  nth (length cs - 1) (SimplePrimalityTest.accumulation cs) 0
  = if forallb (fun c => c =? 1) cs then 1 else 0.
Proof.
  intros Hne Hcs. destruct cs as [|c0 rest]; [contradiction|].
  inversion Hcs; subst. cbn [length SimplePrimalityTest.accumulation forallb].
  replace (S (length rest) - 1)%nat with (length rest) by lia.
  apply accumulate_last; assumption.
Qed.

(** The flags of the honest witness: one per table entry, 0 where the entry
    divides x. *)
Lemma witness_checks x :
  SimplePrimalityTest.checks (SimplePrimalityTest.witness x)
  = map (fun pr => if x mod pr =? 0 then 0 else 1) SimplePrimalityTest.primes.
Proof.
  unfold SimplePrimalityTest.witness; cbn [SimplePrimalityTest.checks].
  rewrite map_map. apply map_ext_in. intros pr Hin.
  destruct (fconst_prime pr Hin) as [-> Hb].
  apply ModulusCheck_witness_out; exact Hb.
Qed.

(** The honest witness of the gadget computes the trial-division policy. *)
Lemma isPrime_witness x :
  SimplePrimalityTest.isPrime (SimplePrimalityTest.witness x)
  = if SimplePrimalityTest.passes_trial_division x then 1 else 0.
Proof.
  pose proof (witness_checks x) as Hc.
  unfold SimplePrimalityTest.witness in *.
  cbn [SimplePrimalityTest.isPrime SimplePrimalityTest.checks] in *.
  rewrite Hc.
  set (g := fun pr => if x mod pr =? 0 then 0 else 1).
  assert (Hlen : length (map g SimplePrimalityTest.primes) = 54%nat)
    by (rewrite length_map; reflexivity).
  change 53%nat with (54 - 1)%nat. rewrite <- Hlen.
  rewrite accumulation_last.
  - rewrite forallb_map. unfold SimplePrimalityTest.passes_trial_division.
    rewrite (forallb_pointwise (fun a => g a =? 1) (fun pr => negb (x mod pr =? 0)));
      [reflexivity|]. intros pr. unfold g.
    destruct (x mod pr =? 0); reflexivity.
  - intros E. rewrite E in Hlen. discriminate.
  - apply Forall_forall. intros c Hin. apply in_map_iff in Hin as (pr & <- & _).
    unfold g. destruct (x mod pr =? 0); [left|right]; reflexivity.
Qed.

Lemma SimplePrimalityTest_witness_ok x :
  SimplePrimalityTest.constraints (SimplePrimalityTest.witness x) = true.
Proof.
  unfold SimplePrimalityTest.constraints, SimplePrimalityTest.witness.
  cbn [SimplePrimalityTest.checks SimplePrimalityTest.modChecks
       SimplePrimalityTest.accumulated SimplePrimalityTest.n
       SimplePrimalityTest.isPrime].
  set (f := fun pr => ModulusCheck.witness 20 x (fconst pr)).
  rewrite !andb_true_iff. repeat match goal with |- _ /\ _ => split end.
  - unfold f. rewrite !length_map. reflexivity.
  - unfold f. rewrite !length_map. reflexivity.
  - rewrite length_accumulation, !length_map. reflexivity.
  - apply forallb_forall. intros i Hi. apply in_seq in Hi.
    assert (Hlt : (i < length SimplePrimalityTest.primes)%nat)
      by (rewrite primes_length; lia).
    rewrite (nth_map_default f _ i 0) by exact Hlt.
    rewrite (nth_map_default ModulusCheck.isNotDivisible _ i ModulusCheck.zero)
      by (rewrite length_map; exact Hlt).
    rewrite (nth_map_default f _ i 0) by exact Hlt.
    rewrite !andb_true_iff.
    repeat match goal with |- _ /\ _ => split end;
      try (apply feq_iff; reflexivity).
    unfold f. apply ModulusCheck_witness_ok.
    destruct (fconst_prime (nth i SimplePrimalityTest.primes 0)) as [-> Hb];
      [apply nth_In; exact Hlt|exact Hb].
  - apply feq_iff. destruct (map _ _); reflexivity.
  - apply forallb_forall. intros i Hi. apply in_seq in Hi.
    apply feq_iff. rewrite accumulation_step; [reflexivity|].
    rewrite !length_map, primes_length. lia.
  - apply feq_iff. reflexivity.
Qed.

(** ** The prime table *)

Lemma primes_are_prime : Forall Z.prime SimplePrimalityTest.primes.
Proof.
  assert (H : forallb Certificate.prime_check SimplePrimalityTest.primes = true)
    by (vm_compute; reflexivity).
  rewrite forallb_forall in H. apply Forall_forall. intros pr Hin.
  apply prime_check_sound, H, Hin.
Qed.

Lemma table_covers_all :
  forallb table_covers (map Z.of_nat (seq 2 255)) = true.
Proof. vm_compute; reflexivity. Qed.

(** The table holds every prime up to 251 (and up to 256). *)
Lemma primes_complete d : Z.prime d -> d <= 256 -> In d SimplePrimalityTest.primes.
Proof.
  intros Hd Hle. pose proof (Z.prime_ge_2 _ Hd) as Hge.
  pose proof table_covers_all as H. rewrite forallb_forall in H.
  assert (Hin : In d (map Z.of_nat (seq 2 255))).
  { apply in_map_iff. exists (Z.to_nat d). split; [lia|]. apply in_seq. lia. }
  specialize (H d Hin). unfold table_covers in H.
  apply orb_true_iff in H as [H|H]; apply existsb_exists in H as (pr & Hpr & Hc).
  - apply Z.eqb_eq in Hc. subst pr. exact Hpr.
  - exfalso. apply andb_true_iff in Hc as [Hlt Hmod].
    apply Z.ltb_lt in Hlt. apply Z.eqb_eq in Hmod.
    pose proof primes_range as Hr. rewrite Forall_forall in Hr.
    specialize (Hr pr Hpr).
    destruct Hd as [_ Hd]. apply (Hd pr); [lia|].
    apply Z.mod_divide; [lia|exact Hmod].
Qed.

Lemma passes_iff x :
  SimplePrimalityTest.passes_trial_division x = true
  <-> forall pr, In pr SimplePrimalityTest.primes -> ~ (pr | x).
Proof.
  unfold SimplePrimalityTest.passes_trial_division. rewrite forallb_forall.
  pose proof primes_range as Hr. rewrite Forall_forall in Hr.
  split; intros H pr Hin; specialize (H pr Hin); specialize (Hr pr Hin).
  - intros Hdiv. apply Z.mod_divide in Hdiv; [|lia].
    rewrite Hdiv in H. discriminate.
  - apply negb_true_iff, Z.eqb_neq. intros Hmod. apply H.
    apply Z.mod_divide; [lia|exact Hmod].
Qed.

(** Passing the table is having no prime factor up to 251. *)
Lemma passes_iff_prime x :
  SimplePrimalityTest.passes_trial_division x = true
  <-> forall d, Z.prime d -> d <= 251 -> ~ (d | x).
Proof.
  rewrite passes_iff. split.
  - intros H d Hd Hle. apply H. apply primes_complete; [exact Hd|lia].
  - intros H pr Hin. apply H.
    + pose proof primes_are_prime as Hp. rewrite Forall_forall in Hp.
      apply Hp, Hin.
    + pose proof primes_range as Hr. rewrite Forall_forall in Hr.
      apply Hr, Hin.
Qed.

(** ** The composite circuit *)

Lemma pow_17_le_Fr : 2 ^ Z.of_nat 17 <= Fr.
Proof. intros H. discriminate H. Qed.

Lemma fconst_small c : 0 <= c < 2 ^ 128 -> fconst c = c.
Proof.
  intros Hc. pose proof Fr_large. change (2 ^ 128) with 340282366920938463463374607431768211456 in Hc.
  apply Z.mod_small. lia.
Qed.

Lemma range_check_witness x :
  32768 <= x <= 65535 ->
  GreaterEqThan.constraints 16 (GreaterEqThan.witness 16 (x, fconst 32768)) = true
  /\ GreaterEqThan.out (GreaterEqThan.witness 16 (x, fconst 32768)) = 1
  /\ LessEqThan.constraints 16 (LessEqThan.witness 16 (x, fconst 65535)) = true
  /\ LessEqThan.out (LessEqThan.witness 16 (x, fconst 65535)) = 1.
Proof.
  intros Hx. pose proof pow_17_le_Fr as H17.
  rewrite !fconst_small by (change (2 ^ 128) with 340282366920938463463374607431768211456; lia).
  assert (Hx16 : 0 <= x < 2 ^ Z.of_nat 16) by (change (2 ^ Z.of_nat 16) with 65536; lia).
  assert (Hmin : 0 <= 32768 < 2 ^ Z.of_nat 16) by (change (2 ^ Z.of_nat 16) with 65536; lia).
  assert (Hmax : 0 <= 65535 < 2 ^ Z.of_nat 16) by (change (2 ^ Z.of_nat 16) with 65536; lia).
  split_and.
  - apply GreaterEqThan_witness_ok; assumption.
  - rewrite GreaterEqThan_witness_out by assumption.
    destruct (x <? 32768) eqn:E; [apply Z.ltb_lt in E; lia|reflexivity].
  - apply LessEqThan_witness_ok; assumption.
  - rewrite LessEqThan_witness_out by assumption.
    destruct (65535 <? x) eqn:E; [apply Z.ltb_lt in E; lia|reflexivity].
Qed.

(** The honest witness of the composite circuit, with the table test as
    a boolean. *)
Lemma honest_witness_ok (p q : Z) :
  32768 <= p <= 65535 -> 32768 <= q <= 65535 ->
  SimplePrimalityTest.passes_trial_division p = true ->
  SimplePrimalityTest.passes_trial_division q = true ->
  p <> q ->
  let self := ZKRSAVerifier.__init__ 16 in
  let w := ZKRSAVerifier.circuit_witness self p q in
  ZKRSAVerifier.circuit_constraints self w = true
  /\ RSASetupVerifier.n w = p * q.
Proof.
  intros Hp Hq Hpp Hpq Hne self w.
  pose proof Fr_large as HFr.
  destruct (range_check_witness p Hp) as (HgeP & HgePo & HleP & HlePo).
  destruct (range_check_witness q Hq) as (HgeQ & HgeQo & HleQ & HleQo).
  assert (Heq : IsEqual.out (IsEqual.witness (p, q)) = 0).
  { rewrite IsEqual_witness_out by lia.
    destruct (p =? q) eqn:E; [apply Z.eqb_eq in E; contradiction|reflexivity]. }
  assert (HprP : SimplePrimalityTest.isPrime (SimplePrimalityTest.witness p) = 1)
    by (rewrite isPrime_witness, Hpp; reflexivity).
  assert (HprQ : SimplePrimalityTest.isPrime (SimplePrimalityTest.witness q) = 1)
    by (rewrite isPrime_witness, Hpq; reflexivity).
  assert (Hvalid : RSASetupVerifier.valid w = 1).
  { unfold w, ZKRSAVerifier.circuit_witness, RSASetupVerifier.witness.
    cbn [RSASetupVerifier.valid]. subst self.
    change (ZKRSAVerifier.min_value (ZKRSAVerifier.__init__ 16)) with 32768.
    change (ZKRSAVerifier.max_value (ZKRSAVerifier.__init__ 16)) with 65535.
    rewrite HgePo, HlePo, HgeQo, HleQo, Heq, HprP, HprQ.
    rewrite fsub_1_0, !fmul_1_1. reflexivity. }
  split.
  - unfold ZKRSAVerifier.circuit_constraints, RSASetupVerifier.constraints.
    rewrite Hvalid.
    unfold w, ZKRSAVerifier.circuit_witness, RSASetupVerifier.witness.
    cbn [RSASetupVerifier.p RSASetupVerifier.q RSASetupVerifier.n
         RSASetupVerifier.validP RSASetupVerifier.validQ
         RSASetupVerifier.geP RSASetupVerifier.leP RSASetupVerifier.geQ
         RSASetupVerifier.leQ RSASetupVerifier.eq RSASetupVerifier.different
         RSASetupVerifier.primeP RSASetupVerifier.primeQ].
    subst self.
    change (ZKRSAVerifier.min_value (ZKRSAVerifier.__init__ 16)) with 32768.
    change (ZKRSAVerifier.max_value (ZKRSAVerifier.__init__ 16)) with 65535.
    rewrite HgeP, HleP, HgeQ, HleQ, IsEqual_witness_ok, !SimplePrimalityTest_witness_ok.
    rewrite HgePo, HlePo, HgeQo, HleQo, Heq, HprP, HprQ.
    rewrite fsub_1_0, !fmul_1_1.
    rewrite !andb_true_iff. split_and; try reflexivity; apply feq_iff; reflexivity.
  - unfold w, ZKRSAVerifier.circuit_witness, RSASetupVerifier.witness.
    cbn [RSASetupVerifier.n]. unfold fmul. apply Z.mod_small. nia.
Qed.

(** C1. For all p, q in [2^15, 2^16 - 1] that no prime up to 251 divides,
    with p <> q, the witness computed from (p, q) by the gadgets'
    witness-computation rules satisfies every constraint of
    RSASetupVerifier, and its public output n is the integer p * q. *)
Theorem C1_honest_witness_satisfies (p q : Z) :
  2 ^ 15 <= p <= 2 ^ 16 - 1 ->
  2 ^ 15 <= q <= 2 ^ 16 - 1 ->
  (forall d, Z.prime d -> d <= 251 -> ~ (d | p)) ->
  (forall d, Z.prime d -> d <= 251 -> ~ (d | q)) ->
  p <> q ->
  let self := ZKRSAVerifier.__init__ 16 in
  let w := ZKRSAVerifier.circuit_witness self p q in
  ZKRSAVerifier.circuit_constraints self w = true
  /\ RSASetupVerifier.n w = p * q.
Proof.
  intros Hp Hq Hpp Hpq Hne.
  change (2 ^ 15) with 32768 in *. change (2 ^ 16 - 1) with 65535 in *.
  apply passes_iff_prime in Hpp, Hpq.
  apply honest_witness_ok; assumption.
Qed.

(** C1 at p = 32771, q = 32779. *)
Lemma C1_honest_witness_satisfies_witness :
  2 ^ 15 <= 32771 <= 2 ^ 16 - 1 /\ 2 ^ 15 <= 32779 <= 2 ^ 16 - 1
  /\ 32771 <> 32779
  /\ ZKRSAVerifier.circuit_constraints (ZKRSAVerifier.__init__ 16)
       (ZKRSAVerifier.circuit_witness (ZKRSAVerifier.__init__ 16) 32771 32779) = true
  /\ RSASetupVerifier.n
       (ZKRSAVerifier.circuit_witness (ZKRSAVerifier.__init__ 16) 32771 32779)
     = 32771 * 32779.
Proof.
  assert (H1 : 2 ^ 15 <= 32771 <= 2 ^ 16 - 1) by (split; intros E; discriminate E).
  assert (H2 : 2 ^ 15 <= 32779 <= 2 ^ 16 - 1) by (split; intros E; discriminate E).
  assert (H3 : forall d, Z.prime d -> d <= 251 -> ~ (d | 32771))
    by (apply passes_iff_prime; vm_compute; reflexivity).
  assert (H4 : forall d, Z.prime d -> d <= 251 -> ~ (d | 32779))
    by (apply passes_iff_prime; vm_compute; reflexivity).
  assert (H5 : 32771 <> 32779) by discriminate.
  exact (conj H1 (conj H2 (conj H5
           (C1_honest_witness_satisfies 32771 32779 H1 H2 H3 H4 H5)))).
Defined.

Lemma fshl_1_16 : fshl 1 (Z.of_nat 16) = 65536.
Proof. reflexivity. Qed.

Lemma eqm_mul_nonzero_l a b : ~ (a * b == 0) -> ~ (a == 0).
Proof. intros H Ha. apply H. rewrite Ha. reflexivity. Qed.

Lemma eqm_mul_nonzero_r a b : ~ (a * b == 0) -> ~ (b == 0).
Proof. intros H Hb. apply H. rewrite Hb, Z.mul_0_r. reflexivity. Qed.

(** The two comparators on one operand: when their conjunction is not
    zero, the operand is in [32768, 65535]. *)
Lemma range_check_sound ge le x vld :
  GreaterEqThan.constraints 16 ge = true ->
  fst (GreaterEqThan.in_ ge) == x -> snd (GreaterEqThan.in_ ge) == 32768 ->
  LessEqThan.constraints 16 le = true ->
  fst (LessEqThan.in_ le) == x -> snd (LessEqThan.in_ le) == 65535 ->
  vld == GreaterEqThan.out ge * LessEqThan.out le ->
  ~ (vld == 0) -> 0 <= x < Fr -> 32768 <= x <= 65535.
Proof.
  intros Hge Hge0 Hge1 Hle Hle0 Hle1 Hv Hnz Hx. pose proof Fr_large as HFr.
  rewrite Hv in Hnz.
  pose proof (eqm_mul_nonzero_l _ _ Hnz) as Hgo.
  pose proof (eqm_mul_nonzero_r _ _ Hnz) as Hlo.
  apply GreaterEqThan_sound in Hge as (v & Hvb & Hveq & Hvc).
  apply LessEqThan_sound in Hle as (v' & Hvb' & Hveq' & Hvc').
  rewrite fshl_1_16, Hge0, Hge1 in Hveq. rewrite fshl_1_16, Hle0, Hle1 in Hveq'.
  change (2 ^ Z.of_nat 17) with 131072 in *.
  change (2 ^ Z.of_nat 16) with 65536 in *.
  destruct Hvc as [[Ho _]|[_ Hv16]]; [contradiction|].
  destruct Hvc' as [[Ho _]|[_ Hv16']]; [contradiction|].
  apply eqm_ex in Hveq as [k Hk]. apply eqm_ex in Hveq' as [k' Hk'].
  assert (Hk0 : k = 0).
  { assert (Hc : k <= -1 \/ k = 0 \/ 1 <= k) by lia.
    destruct Hc as [Hc|[Hc|Hc]]; [nia|exact Hc|nia]. }
  assert (Hk0' : k' = 0).
  { assert (Hc : k' <= -1 \/ k' = 0 \/ 1 <= k') by lia.
    destruct Hc as [Hc|[Hc|Hc]]; [nia|exact Hc|nia]. }
  subst k k'. lia.
Qed.

Lemma product_one_nonzero a b c d e :
  a * b * c * d * e == 1 -> ~ (a == 0) /\ ~ (b == 0).
Proof.
  intros H. split; intros H0; apply one_not_zero; rewrite <- H, H0.
  - apply eqm_of_eq; ring.
  - apply eqm_of_eq; ring.
Qed.

(** C3 (as amended). In every assignment that satisfies all constraints of
    RSASetupVerifier (bit length 16), the field elements p and q, read as
    integers, lie in [32768, 65535].  The range check consists of
    GreaterEqThan(16) against min_value and LessEqThan(16) against
    max_value; the LessThan(16) inside each decomposes
    lt.in[0] + 2^16 - lt.in[1] into 17 bits, and the operands themselves
    are not decomposed. *)
Theorem C3_satisfying_assignments_in_range (s : RSASetupVerifier.signals) :
  ZKRSAVerifier.circuit_constraints (ZKRSAVerifier.__init__ 16) s = true ->
  0 <= RSASetupVerifier.p s < Fr ->
  0 <= RSASetupVerifier.q s < Fr ->
  32768 <= RSASetupVerifier.p s <= 65535
  /\ 32768 <= RSASetupVerifier.q s <= 65535.
Proof.
  unfold ZKRSAVerifier.circuit_constraints, RSASetupVerifier.constraints.
  change (ZKRSAVerifier.min_value (ZKRSAVerifier.__init__ 16)) with 32768.
  change (ZKRSAVerifier.max_value (ZKRSAVerifier.__init__ 16)) with 65535.
  intros H Hp Hq. rewrite !andb_true_iff in H.
  repeat match goal with H : _ /\ _ |- _ => destruct H end.
  repeat match goal with
         | H : feq _ _ = true |- _ => apply feq_iff in H
         end.
  repeat match goal with
         | H : _ == fconst _ |- _ => rewrite fconst_eqm in H
         end.
  repeat match goal with
         | H : context [fmul _ _] |- _ => rewrite fmul_eqm in H
         end.
  assert (Hprod : RSASetupVerifier.validP s * RSASetupVerifier.validQ s
                  * RSASetupVerifier.different s
                  * SimplePrimalityTest.isPrime (RSASetupVerifier.primeP s)
                  * SimplePrimalityTest.isPrime (RSASetupVerifier.primeQ s) == 1).
  { match goal with
    | H1 : RSASetupVerifier.valid s == 1,
      H2 : RSASetupVerifier.valid s == _ * _ |- _ =>
        rewrite <- H1, H2
    end.
    reflexivity. }
  apply product_one_nonzero in Hprod as [HvP HvQ].
  split.
  - eapply (range_check_sound (RSASetupVerifier.geP s) (RSASetupVerifier.leP s));
      try eassumption; lia.
  - eapply (range_check_sound (RSASetupVerifier.geQ s) (RSASetupVerifier.leQ s));
      try eassumption; lia.
Qed.

(** C3 at the honest witness of p = 32771, q = 32779. *)
Lemma C3_satisfying_assignments_in_range_witness :
  let s := ZKRSAVerifier.circuit_witness (ZKRSAVerifier.__init__ 16) 32771 32779 in
  ZKRSAVerifier.circuit_constraints (ZKRSAVerifier.__init__ 16) s = true
  /\ 32768 <= RSASetupVerifier.p s <= 65535
  /\ 32768 <= RSASetupVerifier.q s <= 65535.
Proof.
  intros s.
  assert (H1 : ZKRSAVerifier.circuit_constraints (ZKRSAVerifier.__init__ 16) s = true)
    by (apply (honest_witness_ok 32771 32779); try lia;
        vm_compute; reflexivity).
  assert (H2 : 0 <= RSASetupVerifier.p s < Fr)
    by (change (RSASetupVerifier.p s) with 32771;
        split; [intros E; discriminate E|reflexivity]).
  assert (H3 : 0 <= RSASetupVerifier.q s < Fr)
    by (change (RSASetupVerifier.q s) with 32779;
        split; [intros E; discriminate E|reflexivity]).
  exact (conj H1 (C3_satisfying_assignments_in_range s H1 H2 H3)).
Defined.

(** C3 as stated fails in its mechanism: no operand is bit-decomposed at 16
    bits.  In the witness computed for p = 65536, q = 32771 both
    comparators on p have all their constraints satisfied, although 65536
    is not a 16-bit number and Num2Bits(16) rejects it. *)
Lemma C3_comparator_operand_not_decomposed :
  let w := ZKRSAVerifier.circuit_witness (ZKRSAVerifier.__init__ 16) 65536 32771 in
  RSASetupVerifier.p w = 65536
  /\ ~ (65536 < 2 ^ 16)
  /\ fst (GreaterEqThan.in_ (RSASetupVerifier.geP w)) = RSASetupVerifier.p w
  /\ GreaterEqThan.constraints 16 (RSASetupVerifier.geP w) = true
  /\ fst (LessEqThan.in_ (RSASetupVerifier.leP w)) = RSASetupVerifier.p w
  /\ LessEqThan.constraints 16 (RSASetupVerifier.leP w) = true
  /\ Num2Bits.constraints 16 (Num2Bits.witness 16 65536) = false.
Proof.
  intros w. split_and; try reflexivity; try (vm_compute; reflexivity).
  intros H; discriminate H.
Qed.

Lemma loop_canonical bs : forall e2 l, 0 <= l < Fr ->
  0 <= Bits2Num.loop bs e2 l < Fr.
Proof.
  pose proof Fr_pos as HFr.
  induction bs as [|b bs IH]; intros e2 l Hl; cbn [Bits2Num.loop];
    [exact Hl|].
  apply IH. unfold fadd. apply Z.mod_pos_bound; lia.
Qed.

Lemma lc_canonical n bs : 0 <= Bits2Num.lc n bs < Fr.
Proof.
  pose proof Fr_pos as HFr. unfold Bits2Num.lc. apply loop_canonical. lia.
Qed.

(** C5. Bit-decomposition round trip.  For every integer x with
    0 <= x < 2^n, the witness rule bits[i] = (x >> i) & 1 satisfies every
    constraint of Num2Bits(n), and the weighted sum of the bits is exactly
    x; the signal n2b.out of Bits2Num holds that sum as a field element,
    x mod Fr, which is x itself when x is a field element.  For every x
    with 2^n <= x below the field modulus, no assignment to the signals of
    Num2Bits(n) with input x satisfies its constraints. *)
Theorem C5_bit_decomposition_roundtrip (n : nat) (x : Z) :
  (0 <= x < 2 ^ Z.of_nat n ->
     Num2Bits.constraints n (Num2Bits.witness n x) = true
     /\ bits_value (Num2Bits.out (Num2Bits.witness n x)) = x
     /\ Bits2Num.out (Num2Bits.n2b (Num2Bits.witness n x)) = x mod Fr)
  /\ (2 ^ Z.of_nat n <= x < Fr ->
      forall s, Num2Bits.in_ s = x -> Num2Bits.constraints n s = false).
Proof.
  split.
  - intros Hx. split; [apply Num2Bits_witness_ok; exact Hx|].
    assert (Hv : bits_value (map (Num2Bits.bit x) (seq 0 n)) = x).
    { rewrite bits_value_honest. change (Z.of_nat 0) with 0.
      rewrite Z.pow_0_r, Z.div_1_r. apply Z.mod_small; lia. }
    split; [exact Hv|].
    cbn [Num2Bits.witness Num2Bits.n2b Bits2Num.witness Bits2Num.out].
    rewrite <- (Z.mod_small (Bits2Num.lc n _) Fr) by apply lc_canonical.
    change (Bits2Num.lc n (map (Num2Bits.bit x) (seq 0 n)) == x).
    rewrite lc_eqm, firstn_all2 by (rewrite length_map, length_seq; lia).
    rewrite Hv. reflexivity.
  - intros Hx s Hin. destruct (Num2Bits.constraints n s) eqn:E; [|reflexivity].
    exfalso. apply Num2Bits_sound in E as (_ & _ & Hv & Hb).
    rewrite Hin in Hv. apply eqm_small in Hv; lia.
Qed.

(** C5 at n = 4, x = 11 and at n = 4, x = 16. *)
Lemma C5_bit_decomposition_roundtrip_witness :
  (0 <= 11 < 2 ^ Z.of_nat 4
   /\ Num2Bits.constraints 4 (Num2Bits.witness 4 11) = true
   /\ bits_value (Num2Bits.out (Num2Bits.witness 4 11)) = 11)
  /\ (2 ^ Z.of_nat 4 <= 16 < Fr
      /\ Num2Bits.constraints 4 (Num2Bits.witness 4 16) = false).
Proof.
  assert (H1 : 0 <= 11 < 2 ^ Z.of_nat 4)
    by (split; [intros E; discriminate E|reflexivity]).
  assert (H2 : 2 ^ Z.of_nat 4 <= 16 < Fr)
    by (split; [intros E; discriminate E|reflexivity]).
  pose proof (proj1 (C5_bit_decomposition_roundtrip 4 11) H1) as (Ha & Hb & _).
  pose proof (proj2 (C5_bit_decomposition_roundtrip 4 16) H2
                    (Num2Bits.witness 4 16) eq_refl) as Hc.
  exact (conj (conj H1 (conj Ha Hb)) (conj H2 Hc)).
Defined.

(** C6 (as amended).  Comparator trichotomy for every width n with
    2^(n+1) <= Fr (n <= 252; the circuit uses n = 16): for all a, b in
    [0, 2^n), under the honest witness computation exactly one of
    LessThan(n)(a,b) = 1, IsEqual(a,b) = 1 and LessThan(n)(b,a) = 1
    holds. *)
Theorem C6_comparator_trichotomy (n : nat) (a b : Z) :
  2 ^ Z.of_nat (S n) <= Fr ->
  0 <= a < 2 ^ Z.of_nat n -> 0 <= b < 2 ^ Z.of_nat n ->
  exactly_one
    (LessThan.out (LessThan.witness n (a, b)) = 1)
    (IsEqual.out (IsEqual.witness (a, b)) = 1)
    (LessThan.out (LessThan.witness n (b, a)) = 1).
Proof.
  intros Hn Ha Hb.
  assert (HFr : 2 ^ Z.of_nat n < Fr).
  { rewrite Nat2Z.inj_succ, Z.pow_succ_r in Hn by lia.
    pose proof (pow2_pos n). lia. }
  rewrite !LessThan_witness_out by assumption.
  rewrite IsEqual_witness_out by lia.
  unfold exactly_one.
  destruct (Z.ltb_spec a b), (Z.eqb_spec a b), (Z.ltb_spec b a); lia.
Qed.

(** C6 at n = 16, a = 5, b = 7. *)
Lemma C6_comparator_trichotomy_witness :
  2 ^ Z.of_nat 17 <= Fr /\ 0 <= 5 < 2 ^ Z.of_nat 16 /\ 0 <= 7 < 2 ^ Z.of_nat 16
  /\ exactly_one
       (LessThan.out (LessThan.witness 16 (5, 7)) = 1)
       (IsEqual.out (IsEqual.witness (5, 7)) = 1)
       (LessThan.out (LessThan.witness 16 (7, 5)) = 1).
Proof.
  assert (H0 : 2 ^ Z.of_nat 17 <= Fr) by (intros H; discriminate H).
  assert (H1 : 0 <= 5 < 2 ^ Z.of_nat 16) by (split; [discriminate|reflexivity]).
  assert (H2 : 0 <= 7 < 2 ^ Z.of_nat 16) by (split; [discriminate|reflexivity]).
  exact (conj H0 (conj H1 (conj H2 (C6_comparator_trichotomy 16 5 7 H0 H1 H2)))).
Defined.

(** C6 as stated fails at width 253: with a = Fr - 2^253 and b = 0, both
    below 2^253, the sum a + 2^253 - b wraps around the field modulus and
    both LessThan(253)(a,b) and LessThan(253)(b,a) output 1. *)
Lemma C6_trichotomy_fails_at_width_253 :
  0 <= Fr - 2 ^ 253 < 2 ^ Z.of_nat 253 /\ 0 <= 0 < 2 ^ Z.of_nat 253
  /\ LessThan.out (LessThan.witness 253 (Fr - 2 ^ 253, 0)) = 1
  /\ LessThan.out (LessThan.witness 253 (0, Fr - 2 ^ 253)) = 1
  /\ ~ exactly_one
       (LessThan.out (LessThan.witness 253 (Fr - 2 ^ 253, 0)) = 1)
       (IsEqual.out (IsEqual.witness (Fr - 2 ^ 253, 0)) = 1)
       (LessThan.out (LessThan.witness 253 (0, Fr - 2 ^ 253)) = 1).
Proof.
  assert (H1 : LessThan.out (LessThan.witness 253 (Fr - 2 ^ 253, 0)) = 1)
    by (vm_compute; reflexivity).
  assert (H2 : LessThan.out (LessThan.witness 253 (0, Fr - 2 ^ 253)) = 1)
    by (vm_compute; reflexivity).
  split_and; try (vm_compute; reflexivity); try (intros H; discriminate H);
    try assumption.
  unfold exactly_one. intros [(_ & _ & H)|[(H & _)|(H & _)]]; contradiction.
Qed.

(** C2. The constraints of ModulusCheck do not force 0 <= remainder <
    modulus: for value = 32770 and modulus = 2, which divides it, the
    assignment quotient = 16384, remainder = 2, inv = 1/2, isZero.out = 0
    satisfies every constraint and has isNotDivisible = 1. *)
Theorem C2_remainder_not_range_constrained :
  exists s : ModulusCheck.signals,
    ModulusCheck.value s = 32770 /\ ModulusCheck.modulus s = 2
    /\ (ModulusCheck.modulus s | ModulusCheck.value s)
    /\ ~ (0 <= ModulusCheck.remainder s < ModulusCheck.modulus s)
    /\ ModulusCheck.constraints 20 s = true
    /\ ModulusCheck.isNotDivisible s = 1.
Proof.
  exists {| ModulusCheck.value := 32770; ModulusCheck.modulus := 2;
            ModulusCheck.quotient := 16384; ModulusCheck.remainder := 2;
            ModulusCheck.isZero := IsZero.witness 2;
            ModulusCheck.isNotDivisible := 1 |}.
  cbn [ModulusCheck.value ModulusCheck.modulus ModulusCheck.remainder
       ModulusCheck.isNotDivisible].
  split_and.
  - reflexivity.
  - reflexivity.
  - exists 16385. reflexivity.
  - lia.
  - vm_compute; reflexivity.
  - reflexivity.
Qed.

(** C4 (as amended).  Under the honest witness computation the
    SimplePrimalityTest gadget outputs isPrime = 1 for every prime input
    above 251 (so for every prime in [257, 65535]), and isPrime = 0 for
    every input that has a prime factor of at most 251; the primes 2..251
    of the table are themselves among the latter. *)
Theorem C4_primality_gadget (x : Z) :
  (Z.prime x -> 251 < x ->
     SimplePrimalityTest.isPrime (SimplePrimalityTest.witness x) = 1)
  /\ ((exists d, Z.prime d /\ d <= 251 /\ (d | x)) ->
      SimplePrimalityTest.isPrime (SimplePrimalityTest.witness x) = 0).
Proof.
  rewrite isPrime_witness. split.
  - intros Hx Hgt.
    assert (Hp : SimplePrimalityTest.passes_trial_division x = true).
    { apply passes_iff_prime. intros d Hd Hle Hdiv.
      pose proof (Z.prime_ge_2 _ Hd).
      apply (Z.divide_prime_r d x Hx) in Hdiv. lia. }
    rewrite Hp. reflexivity.
  - intros (d & Hd & Hle & Hdiv).
    destruct (SimplePrimalityTest.passes_trial_division x) eqn:E; [|reflexivity].
    exfalso. rewrite passes_iff_prime in E. exact (E d Hd Hle Hdiv).
Qed.

Lemma prime_257 : Z.prime 257.
Proof. apply prime_check_sound. vm_compute; reflexivity. Qed.

(** C4 at the prime 257 and at 32770 = 2 * 16385. *)
Lemma C4_primality_gadget_witness :
  (Z.prime 257 /\ 251 < 257
   /\ SimplePrimalityTest.isPrime (SimplePrimalityTest.witness 257) = 1)
  /\ ((exists d, Z.prime d /\ d <= 251 /\ (d | 32770))
      /\ SimplePrimalityTest.isPrime (SimplePrimalityTest.witness 32770) = 0).
Proof.
  assert (H1 : 251 < 257) by reflexivity.
  assert (H2 : exists d, Z.prime d /\ d <= 251 /\ (d | 32770)).
  { exists 2. split; [exact Z.prime_2|]. split; [discriminate|].
    exists 16385. reflexivity. }
  split.
  - exact (conj prime_257 (conj H1 (proj1 (C4_primality_gadget 257) prime_257 H1))).
  - exact (conj H2 (proj2 (C4_primality_gadget 32770) H2)).
Defined.

(** C4 as stated fails at the prime 2: it lies in [2, 65535], its square
    root is at most 251, and the gadget outputs isPrime = 0, because 2 is
    an entry of the table and divides itself. *)
Lemma C4_rejects_the_prime_2 :
  Z.prime 2 /\ 2 <= 2 <= 65535 /\ Z.sqrt 2 <= 251
  /\ SimplePrimalityTest.isPrime (SimplePrimalityTest.witness 2) = 0
  /\ SimplePrimalityTest.isPrime (SimplePrimalityTest.witness 2) <> 1.
Proof.
  assert (H : SimplePrimalityTest.isPrime (SimplePrimalityTest.witness 2) = 0)
    by (vm_compute; reflexivity).
  split; [exact Z.prime_2|]. split; [lia|].
  split; [intros E; discriminate E|]. split; [exact H|].
  rewrite H. discriminate.
Qed.

(** C9 (as amended).  For p = 32771 and q = 32779 the honest witness
    satisfies RSASetupVerifier and the public output is
    n = 32771 * 32779 = 1074200609. *)
Theorem C9_concrete_scenario :
  ZKRSAVerifier.circuit_constraints (ZKRSAVerifier.__init__ 16)
    (ZKRSAVerifier.circuit_witness (ZKRSAVerifier.__init__ 16) 32771 32779) = true
  /\ RSASetupVerifier.n
       (ZKRSAVerifier.circuit_witness (ZKRSAVerifier.__init__ 16) 32771 32779)
     = 1074200609
  /\ 32771 * 32779 = 1074200609.
Proof.
  assert (Hp : SimplePrimalityTest.passes_trial_division 32771 = true)
    by (vm_compute; reflexivity).
  assert (Hq : SimplePrimalityTest.passes_trial_division 32779 = true)
    by (vm_compute; reflexivity).
  destruct (honest_witness_ok 32771 32779 ltac:(lia) ltac:(lia) Hp Hq ltac:(lia))
    as [Hc Hn].
  split; [exact Hc|]. split; [rewrite Hn; reflexivity|reflexivity].
Qed.

(** C9 as stated fails: the public output for p = 32771, q = 32779 is not
    1074004409. *)
Lemma C9_output_is_not_1074004409 :
  RSASetupVerifier.n
    (ZKRSAVerifier.circuit_witness (ZKRSAVerifier.__init__ 16) 32771 32779)
  <> 1074004409.
Proof.
  unfold ZKRSAVerifier.circuit_witness, RSASetupVerifier.witness.
  cbn [RSASetupVerifier.n]. vm_compute. discriminate.
Qed.

Import ZKRSAVerifier.

(** ** The Python validator *)

Lemma In_range i start stop step : 0 < step ->
  In i (range start stop step)
  <-> start <= i < stop /\ (i - start) mod step = 0.
Proof.
  intros Hs. unfold range. rewrite in_map_iff. split.
  - intros (k & <- & Hk). apply in_seq in Hk.
    assert (Hk' : Z.of_nat k < (stop - start + step - 1) / step) by lia.
    split.
    + Z.div_mod_to_equations. nia.
    + replace (start + step * Z.of_nat k - start) with (Z.of_nat k * step) by ring.
      apply Z.mod_mul. lia.
  - intros [Hi Hm]. exists (Z.to_nat ((i - start) / step)).
    assert (Hq : 0 <= (i - start) / step) by (apply Z.div_pos; lia).
    split.
    + rewrite Z2Nat.id by exact Hq.
      pose proof (Z.div_mod (i - start) step ltac:(lia)). lia.
    + apply in_seq. split; [lia|]. cbn [Nat.add].
      apply Z2Nat.inj_lt; [exact Hq| |].
      * Z.div_mod_to_equations. nia.
      * Z.div_mod_to_equations. nia.
Qed.

Lemma for_divisors_iff n l :
  for_divisors n l = true <-> forall i, In i l -> n mod i <> 0.
Proof.
  induction l as [|i l IH]; cbn [for_divisors].
  - split; [intros _ i []|reflexivity].
  - destruct (n mod i =? 0) eqn:E.
    + apply Z.eqb_eq in E. split; [discriminate|].
      intros H. exfalso. apply (H i); [left; reflexivity|exact E].
    + apply Z.eqb_neq in E. rewrite IH. split.
      * intros H j [<-|Hj]; [exact E|apply H, Hj].
      * intros H j Hj. apply H. right; exact Hj.
Qed.

(** _is_prime decides primality. *)
Theorem _is_prime_correct n : _is_prime n = true <-> Z.prime n.
Proof.
  unfold _is_prime.
  destruct (Z.ltb_spec n 2) as [Hlt|Hge].
  { split; [discriminate|]. intros Hp. pose proof (Z.prime_ge_2 _ Hp). lia. }
  destruct (Z.eqb_spec n 2) as [->|Hne].
  { split; [intros _; exact Z.prime_2|reflexivity]. }
  destruct (Z.eqb_spec (n mod 2) 0) as [Hev|Hodd].
  { split; [discriminate|]. intros [_ Hp]. exfalso.
    apply (Hp 2); [lia|]. apply Z.mod_divide; [lia|exact Hev]. }
  rewrite for_divisors_iff.
  pose proof (Z.sqrt_spec n ltac:(lia)) as Hsq. cbv zeta in Hsq.
  pose proof (Z.sqrt_nonneg n) as Hs0.
  split.
  - intros H. split; [lia|]. intros a Ha Hdiv.
    destruct (small_factor n a Ha Hdiv) as (k & Hk1 & Hk2 & Hk3).
    assert (Hks : k <= Z.sqrt n) by (apply Z.sqrt_le_square; lia).
    destruct (Z.eq_dec (k mod 2) 0) as [Hke|Hko].
    + apply Hodd. apply Z.mod_divide; [lia|].
      apply Z.divide_trans with k; [|exact Hk3].
      apply Z.mod_divide; [lia|exact Hke].
    + apply (H k).
      * apply In_range; [lia|]. split.
        -- assert (k <> 2) by (intros ->; apply Hko; reflexivity). lia.
        -- Z.div_mod_to_equations. lia.
      * apply Z.mod_divide; [lia|exact Hk3].
  - intros [_ Hp] i Hi Hmod. apply In_range in Hi; [|lia].
    destruct Hi as [Hi _].
    apply (Hp i).
    + split; [lia|]. assert (Z.sqrt n < n) by (apply Z.sqrt_lt_lin; lia). lia.
    + apply Z.mod_divide; [lia|exact Hmod].
Qed.

Lemma _is_prime_even n : 2 < n -> n mod 2 = 0 -> _is_prime n = false.
Proof.
  intros Hn He. unfold _is_prime.
  destruct (Z.ltb_spec n 2); [reflexivity|].
  destruct (Z.eqb_spec n 2); [lia|].
  rewrite He. reflexivity.
Qed.

(** On operands above 251 and below 257^2 the table decides primality. *)
Lemma passes_iff_prime_in_range m : 251 < m < 257 * 257 ->
  SimplePrimalityTest.passes_trial_division m = true <-> Z.prime m.
Proof.
  intros Hm. rewrite passes_iff_prime. split.
  - intros H. split; [lia|]. intros a Ha Hdiv.
    destruct (small_factor m a Ha Hdiv) as (k & Hk1 & Hk2 & Hk3).
    destruct (prime_divisor k Hk1) as (d & Hd & Hdk).
    pose proof (Z.prime_ge_2 _ Hd).
    assert (d <= k) by (apply Z.divide_pos_le; [lia|exact Hdk]).
    assert (Hd256 : d <= 256) by nia.
    pose proof (primes_complete d Hd Hd256) as Hin.
    pose proof primes_range as Hr. rewrite Forall_forall in Hr.
    specialize (Hr d Hin).
    apply (H d Hd); [lia|]. apply Z.divide_trans with k; assumption.
  - intros Hp d Hd Hle Hdiv. pose proof (Z.prime_ge_2 _ Hd).
    apply (Z.divide_prime_r d m Hp) in Hdiv. lia.
Qed.

(** C7. On the operand range [2^15, 2^16 - 1] the trial-division policy of
    the circuit coincides with the Python validator: m has no divisor in
    the 54-entry table if and only if _is_prime(m) returns True; hence the
    honest gadget output isPrime is 1 exactly when _is_prime(m) is True.
    Both coincide with primality of m. *)
Theorem C7_policy_agrees_with_validator (m : Z) :
  2 ^ 15 <= m <= 2 ^ 16 - 1 ->
  ((forall pr, In pr SimplePrimalityTest.primes -> ~ (pr | m))
     <-> _is_prime m = true)
  /\ (SimplePrimalityTest.isPrime (SimplePrimalityTest.witness m) = 1
     <-> _is_prime m = true)
  /\ (_is_prime m = true <-> Z.prime m).
Proof.
  intros Hm. change (2 ^ 15) with 32768 in Hm. change (2 ^ 16 - 1) with 65535 in Hm.
  assert (Hr : 251 < m < 257 * 257) by lia.
  split_and.
  - rewrite <- passes_iff, _is_prime_correct. apply passes_iff_prime_in_range, Hr.
  - rewrite isPrime_witness, _is_prime_correct.
    rewrite <- (passes_iff_prime_in_range m Hr).
    destruct (SimplePrimalityTest.passes_trial_division m);
      split; intros E; try reflexivity; discriminate E.
  - apply _is_prime_correct.
Qed.

(** C7 at m = 32771. *)
Lemma C7_policy_agrees_with_validator_witness :
  2 ^ 15 <= 32771 <= 2 ^ 16 - 1
  /\ ((forall pr, In pr SimplePrimalityTest.primes -> ~ (pr | 32771))
      <-> _is_prime 32771 = true).
Proof.
  assert (H1 : 2 ^ 15 <= 32771 <= 2 ^ 16 - 1) by (split; intros E; discriminate E).
  exact (conj H1 (proj1 (C7_policy_agrees_with_validator 32771 H1))).
Defined.

(** ** find_16bit_primes *)

(** The loop never runs out of fuel. *)
Lemma find_loop_total self count fuel : forall primes n,
  max_value self - n < Z.of_nat fuel ->
  exists l, find_loop fuel self count primes n = Some l.
Proof.
  induction fuel as [|fuel IH]; intros primes n Hf; cbn [find_loop].
  - destruct (Z.of_nat (length primes) <? count); cbn [andb]; [|eauto].
    destruct (Z.leb_spec n (max_value self)); [lia|eauto].
  - destruct ((Z.of_nat (length primes) <? count) && (n <=? max_value self));
      [|eauto].
    apply IH. destruct (n >? 2); lia.
Qed.

Lemma find_16bit_primes_total self count :
  exists l, find_16bit_primes self count = Some l.
Proof. apply find_loop_total. lia. Qed.

(** From an even n above 2 the scan only meets even numbers. *)
Lemma find_loop_even self count fuel : forall n,
  2 < n -> n mod 2 = 0 -> max_value self - n < Z.of_nat fuel ->
  find_loop fuel self count [] n = Some [].
Proof.
  induction fuel as [|fuel IH]; intros n Hn He Hf; cbn [find_loop].
  - destruct (Z.of_nat (length (@nil Z)) <? count); cbn [andb]; [|reflexivity].
    destruct (Z.leb_spec n (max_value self)); [lia|reflexivity].
  - destruct ((Z.of_nat (length (@nil Z)) <? count) && (n <=? max_value self));
      [|reflexivity].
    rewrite (_is_prime_even n Hn He).
    destruct (Z.gtb_spec n 2); [|lia].
    apply IH; [lia| |lia].
    rewrite Z.add_mod, He by lia. reflexivity.
Qed.

(** C10. With bit_length = 16 (min_value = 32768), find_16bit_primes(count)
    returns the empty list for every count >= 1: the scan starts at the
    even number 32768 and advances by 2, so it only tests even numbers,
    and _is_prime rejects each of them. *)
Theorem C10_find_16bit_primes_empty (count : Z) :
  1 <= count -> find_16bit_primes (__init__ 16) count = Some [].
Proof.
  intros _. unfold find_16bit_primes. apply find_loop_even.
  - reflexivity.
  - reflexivity.
  - cbn [max_value min_value __init__]. lia.
Qed.

(** C10 at count = 10, the call of run_demo. *)
Lemma C10_find_16bit_primes_empty_witness :
  1 <= 10 /\ find_16bit_primes (__init__ 16) 10 = Some [].
Proof.
  assert (H : 1 <= 10) by (intros E; discriminate E).
  exact (conj H (C10_find_16bit_primes_empty 10 H)).
Defined.

(** ** generate_proof *)




Section GenerateProofProperties.
Variable Proof : Type.
Variable proof_json : Z -> Z -> Proof.
Variable public_json : Z -> Z -> exn + Z.
Variable clock : Z.
Variable failure : effect -> option exn.
Variable isqrt_float : Z -> Z.







End GenerateProofProperties.



(** ** Further properties of the gadgets *)

(** X1. IsZero.  The honest witness satisfies the constraints for every
    field element, and in every satisfying assignment, whatever inv is,
    out is 1 when in is 0 in the field and out is 0 otherwise. *)
Theorem X1_IsZero_decides_zero (x : Z) (s : IsZero.signals) :
  0 <= x < Fr ->
  IsZero.constraints s = true ->
  IsZero.constraints (IsZero.witness x) = true
  /\ ((IsZero.in_ s == 0 /\ IsZero.out s == 1)
      \/ (~ (IsZero.in_ s == 0) /\ IsZero.out s == 0)).
Proof.
  intros Hx Hs. split; [apply IsZero_witness_ok; exact Hx|].
  destruct (IsZero_sound s Hs) as [H0 H1].
  destruct (Z.eq_dec (IsZero.in_ s mod Fr) (0 mod Fr)) as [E|E].
  - left. split; [exact E|apply H0; exact E].
  - right. split; [exact E|apply H1; exact E].
Qed.

(** X1 at x = 5 and the honest witness of 0. *)
Lemma X1_IsZero_decides_zero_witness :
  0 <= 5 < Fr /\ IsZero.constraints (IsZero.witness 0) = true
  /\ IsZero.constraints (IsZero.witness 5) = true.
Proof.
  assert (H1 : 0 <= 5 < Fr) by (split; [intros E; discriminate E|reflexivity]).
  assert (H2 : IsZero.constraints (IsZero.witness 0) = true) by reflexivity.
  exact (conj H1 (conj H2
           (proj1 (X1_IsZero_decides_zero 5 (IsZero.witness 0) H1 H2)))).
Defined.

Lemma IsEqual_sound s : IsEqual.constraints s = true ->
  (fst (IsEqual.in_ s) == snd (IsEqual.in_ s) -> IsEqual.out s == 1)
  /\ (~ (fst (IsEqual.in_ s) == snd (IsEqual.in_ s)) -> IsEqual.out s == 0).
Proof.
  unfold IsEqual.constraints. intros H. rewrite !andb_true_iff in H.
  destruct H as ((Hin & Hz) & Hout). apply feq_iff in Hin, Hout.
  rewrite fsub_eqm in Hin. destruct (IsZero_sound _ Hz) as [H0 H1].
  split; intros Hab; rewrite Hout.
  - apply H0. rewrite Hin, Hab. apply eqm_of_eq; ring.
  - apply H1. rewrite Hin. intros E. apply Hab.
    assert (E' : fst (IsEqual.in_ s)
                 = (fst (IsEqual.in_ s) - snd (IsEqual.in_ s)) + snd (IsEqual.in_ s))
      by ring.
    rewrite E', E. apply eqm_of_eq; ring.
Qed.

(** X2. IsEqual.  In every satisfying assignment out is 1 when the two
    inputs are equal in the field and 0 when they differ. *)
Theorem X2_IsEqual_decides_equality (s : IsEqual.signals) :
  IsEqual.constraints s = true ->
  (fst (IsEqual.in_ s) == snd (IsEqual.in_ s) /\ IsEqual.out s == 1)
  \/ (~ (fst (IsEqual.in_ s) == snd (IsEqual.in_ s)) /\ IsEqual.out s == 0).
Proof.
  intros Hs. destruct (IsEqual_sound s Hs) as [H0 H1].
  destruct (Z.eq_dec (fst (IsEqual.in_ s) mod Fr) (snd (IsEqual.in_ s) mod Fr))
    as [E|E].
  - left. split; [exact E|apply H0; exact E].
  - right. split; [exact E|apply H1; exact E].
Qed.

(** X2 at the honest witness of (3, 3). *)
Lemma X2_IsEqual_decides_equality_witness :
  IsEqual.constraints (IsEqual.witness (3, 3)) = true
  /\ ((fst (IsEqual.in_ (IsEqual.witness (3, 3)))
         == snd (IsEqual.in_ (IsEqual.witness (3, 3)))
       /\ IsEqual.out (IsEqual.witness (3, 3)) == 1)
      \/ (~ (fst (IsEqual.in_ (IsEqual.witness (3, 3)))
               == snd (IsEqual.in_ (IsEqual.witness (3, 3))))
          /\ IsEqual.out (IsEqual.witness (3, 3)) == 0)).
Proof.
  assert (H : IsEqual.constraints (IsEqual.witness (3, 3)) = true) by reflexivity.
  exact (conj H (X2_IsEqual_decides_equality _ H)).
Defined.

(** The number written by LessThan's bits, for operands of n bits. *)
Lemma LessThan_sound_in_range n s a b : 2 ^ Z.of_nat (S n) <= Fr ->
  LessThan.constraints n s = true -> LessThan.in_ s = (a, b) ->
  0 <= a < 2 ^ Z.of_nat n -> 0 <= b < 2 ^ Z.of_nat n ->
  (LessThan.out s == 1 /\ a < b) \/ (LessThan.out s == 0 /\ b <= a).
Proof.
  intros Hn Hs Hin Ha Hb. pose proof (pow2_pos n) as Hp.
  assert (Hn' : 2 * 2 ^ Z.of_nat n <= Fr)
    by (rewrite Nat2Z.inj_succ, Z.pow_succ_r in Hn by lia; exact Hn).
  apply LessThan_sound in Hs as (v & Hv & Heq & Hc).
  rewrite Nat2Z.inj_succ, Z.pow_succ_r in Hv by lia.
  rewrite Hin in Heq; cbn [fst snd] in Heq. rewrite fshl_1 in Heq by lia.
  apply eqm_small in Heq; [|lia|lia].
  destruct Hc as [[Ho Hlt]|[Ho Hge]]; [left|right]; split; auto; lia.
Qed.

(** X3. LessThan(n), for a width with 2^(n+1) <= Fr.  In every satisfying
    assignment whose operands are n-bit numbers a and b, out is 1 when
    a < b and 0 when b <= a. *)
Theorem X3_LessThan_decides_order (n : nat) (s : LessThan.signals) (a b : Z) :
  2 ^ Z.of_nat (S n) <= Fr ->
  LessThan.constraints n s = true -> LessThan.in_ s = (a, b) ->
  0 <= a < 2 ^ Z.of_nat n -> 0 <= b < 2 ^ Z.of_nat n ->
  (a < b /\ LessThan.out s == 1) \/ (b <= a /\ LessThan.out s == 0).
Proof.
  intros Hn Hs Hin Ha Hb.
  destruct (LessThan_sound_in_range n s a b Hn Hs Hin Ha Hb) as [[H1 H2]|[H1 H2]];
    [left|right]; split; assumption.
Qed.

(** X3 at the honest witness of LessThan(16) on (5, 7). *)
Lemma X3_LessThan_decides_order_witness :
  LessThan.constraints 16 (LessThan.witness 16 (5, 7)) = true
  /\ ((5 < 7 /\ LessThan.out (LessThan.witness 16 (5, 7)) == 1)
      \/ (7 <= 5 /\ LessThan.out (LessThan.witness 16 (5, 7)) == 0)).
Proof.
  assert (H0 : 2 ^ Z.of_nat 17 <= Fr) by (intros H; discriminate H).
  assert (H1 : LessThan.constraints 16 (LessThan.witness 16 (5, 7)) = true)
    by reflexivity.
  assert (H2 : 0 <= 5 < 2 ^ Z.of_nat 16) by (split; [discriminate|reflexivity]).
  assert (H3 : 0 <= 7 < 2 ^ Z.of_nat 16) by (split; [discriminate|reflexivity]).
  exact (conj H1 (X3_LessThan_decides_order 16 _ 5 7 H0 H1 eq_refl H2 H3)).
Defined.

Lemma comparator_value n v a b : 2 ^ Z.of_nat (S n) <= Fr ->
  0 <= a < 2 ^ Z.of_nat n -> 0 <= b < 2 ^ Z.of_nat n ->
  0 <= v < 2 ^ Z.of_nat (S n) ->
  v == a + fshl 1 (Z.of_nat n) - b -> v = a + 2 ^ Z.of_nat n - b.
Proof.
  intros Hn Ha Hb Hv Heq. pose proof (pow2_pos n) as Hp.
  rewrite Nat2Z.inj_succ, Z.pow_succ_r in Hn, Hv by lia.
  rewrite fshl_1 in Heq by lia. apply eqm_small in Heq; lia.
Qed.

(** X4. GreaterEqThan(n) and LessEqThan(n), for a width with
    2^(n+1) <= Fr.  In every satisfying assignment whose operands are
    n-bit numbers a and b, the output of GreaterEqThan is 1 when a >= b
    and 0 when a < b, and the output of LessEqThan is 1 when a <= b and 0
    when a > b. *)
Theorem X4_comparators_decide_order (n : nat) (a b : Z)
        (ge : GreaterEqThan.signals) (le : LessEqThan.signals) :
  2 ^ Z.of_nat (S n) <= Fr ->
  0 <= a < 2 ^ Z.of_nat n -> 0 <= b < 2 ^ Z.of_nat n ->
  GreaterEqThan.constraints n ge = true -> GreaterEqThan.in_ ge = (a, b) ->
  LessEqThan.constraints n le = true -> LessEqThan.in_ le = (a, b) ->
  ((b <= a /\ GreaterEqThan.out ge == 1) \/ (a < b /\ GreaterEqThan.out ge == 0))
  /\ ((a <= b /\ LessEqThan.out le == 1) \/ (b < a /\ LessEqThan.out le == 0)).
Proof.
  intros Hn Ha Hb Hge Hgin Hle Hlin.
  apply GreaterEqThan_sound in Hge as (v & Hv & Heq & Hc).
  apply LessEqThan_sound in Hle as (v' & Hv' & Heq' & Hc').
  rewrite Hgin in Heq. rewrite Hlin in Heq'. cbn [fst snd] in Heq, Heq'.
  apply (comparator_value n v a b Hn Ha Hb Hv) in Heq.
  apply (comparator_value n v' b a Hn Hb Ha Hv') in Heq'.
  split.
  - destruct Hc as [[Ho Hlt]|[Ho Hge]]; [right|left]; split; auto; lia.
  - destruct Hc' as [[Ho Hlt]|[Ho Hge]]; [right|left]; split; auto; lia.
Qed.

(** X4 at the honest witnesses of the 16-bit comparators on (5, 7). *)
Lemma X4_comparators_decide_order_witness :
  ((7 <= 5 /\ GreaterEqThan.out (GreaterEqThan.witness 16 (5, 7)) == 1)
   \/ (5 < 7 /\ GreaterEqThan.out (GreaterEqThan.witness 16 (5, 7)) == 0))
  /\ ((5 <= 7 /\ LessEqThan.out (LessEqThan.witness 16 (5, 7)) == 1)
      \/ (7 < 5 /\ LessEqThan.out (LessEqThan.witness 16 (5, 7)) == 0)).
Proof.
  assert (H0 : 2 ^ Z.of_nat 17 <= Fr) by (intros H; discriminate H).
  assert (H2 : 0 <= 5 < 2 ^ Z.of_nat 16) by (split; [discriminate|reflexivity]).
  assert (H3 : 0 <= 7 < 2 ^ Z.of_nat 16) by (split; [discriminate|reflexivity]).
  exact (X4_comparators_decide_order 16 5 7
           (GreaterEqThan.witness 16 (5, 7)) (LessEqThan.witness 16 (5, 7))
           H0 H2 H3 eq_refl eq_refl eq_refl eq_refl).
Defined.

Lemma bits_value_digit bs : Forall is_bit bs -> forall i, (i < length bs)%nat ->
  nth i bs 0 mod Fr = (bits_value bs / 2 ^ Z.of_nat i) mod 2.
Proof.
  induction 1 as [|b bs Hb Hbs IH]; intros i Hi; cbn [length] in Hi; [lia|].
  cbn [bits_value fold_right]. fold (bits_value bs).
  apply is_bit_mod in Hb.
  destruct i as [|i]; cbn [nth].
  - change (Z.of_nat 0) with 0. rewrite Z.pow_0_r, Z.div_1_r.
    destruct Hb as [E|E]; rewrite E; Z.div_mod_to_equations; lia.
  - rewrite IH by lia. rewrite Nat2Z.inj_succ, Z.pow_succ_r by lia.
    rewrite <- Z.div_div by (try lia; apply Z.pow_pos_nonneg; lia).
    assert (E2 : (b mod Fr + 2 * bits_value bs) / 2 = bits_value bs)
      by (destruct Hb as [E|E]; rewrite E; Z.div_mod_to_equations; lia).
    rewrite E2. reflexivity.
Qed.

(** X5. Num2Bits(n), for a width with 2^n <= Fr.  The decomposition is
    unique: in every satisfying assignment whose input is a field element
    x, x is below 2^n and every out[i] is, as a field element, bit i of x,
    the value the witness rule (x >> i) & 1 assigns. *)
Theorem X5_Num2Bits_unique (n : nat) (s : Num2Bits.signals) :
  2 ^ Z.of_nat n <= Fr ->
  Num2Bits.constraints n s = true ->
  0 <= Num2Bits.in_ s < Fr ->
  Num2Bits.in_ s < 2 ^ Z.of_nat n
  /\ length (Num2Bits.out s) = n
  /\ forall i, (i < n)%nat ->
       nth i (Num2Bits.out s) 0 mod Fr = Num2Bits.bit (Num2Bits.in_ s) i.
Proof.
  intros Hn Hs Hx.
  apply Num2Bits_sound in Hs as (Hlen & Hbits & Hv & Hb).
  apply eqm_small in Hv; [|lia|exact Hx].
  split; [lia|]. split; [exact Hlen|]. intros i Hi.
  rewrite bit_spec, <- Hv. apply bits_value_digit; [exact Hbits|lia].
Qed.

(** X5 at the honest decomposition of 11 into 4 bits. *)
Lemma X5_Num2Bits_unique_witness :
  2 ^ Z.of_nat 4 <= Fr
  /\ Num2Bits.constraints 4 (Num2Bits.witness 4 11) = true
  /\ Num2Bits.in_ (Num2Bits.witness 4 11) < 2 ^ Z.of_nat 4.
Proof.
  assert (H0 : 2 ^ Z.of_nat 4 <= Fr) by (intros H; discriminate H).
  assert (H1 : Num2Bits.constraints 4 (Num2Bits.witness 4 11) = true)
    by reflexivity.
  assert (H2 : 0 <= Num2Bits.in_ (Num2Bits.witness 4 11) < Fr)
    by (split; [intros E; discriminate E|reflexivity]).
  exact (conj H0 (conj H1
           (proj1 (X5_Num2Bits_unique 4 (Num2Bits.witness 4 11) H0 H1 H2)))).
Defined.

(** ** Assignments other than the honest one: properties *)

Lemma chosen_ModulusCheck_out value modulus flag : flag = 0 \/ flag = 1 ->
  ModulusCheck.isNotDivisible (chosen_ModulusCheck value modulus flag) = flag.
Proof.
  pose proof Fr_large as HFr.
  unfold chosen_ModulusCheck; cbn [ModulusCheck.isNotDivisible].
  intros [-> | ->]; rewrite IsZero_witness_out by lia; cbn [Z.eqb];
    [apply fsub_1_1|apply fsub_1_0].
Qed.

Lemma chosen_ModulusCheck_ok n value modulus flag :
  ~ (modulus == 0) -> flag = 0 \/ flag = 1 ->
  ModulusCheck.constraints n (chosen_ModulusCheck value modulus flag) = true.
Proof.
  intros Hm Hf. pose proof Fr_large as HFr.
  unfold ModulusCheck.constraints. rewrite !andb_true_iff. split_and.
  - apply feq_iff.
    cbn [chosen_ModulusCheck ModulusCheck.value ModulusCheck.quotient
         ModulusCheck.modulus ModulusCheck.remainder].
    rewrite fadd_eqm, fmul_eqm. unfold fdiv. rewrite mod_Fr_eqm, fsub_eqm.
    assert (E : (value - flag) * Z.invmod modulus Fr * modulus + flag
                = (value - flag) * (modulus * Z.invmod modulus Fr) + flag) by ring.
    rewrite E, invmod_Fr by exact Hm. apply eqm_of_eq; ring.
  - apply feq_iff. reflexivity.
  - apply IsZero_witness_ok. cbn [chosen_ModulusCheck ModulusCheck.remainder].
    destruct Hf as [-> | ->]; lia.
  - apply feq_iff. reflexivity.
Qed.

(** X6. ModulusCheck does not tie its output to divisibility.  For every
    value and every modulus that is not zero in the field, and for each
    flag 0 or 1, some assignment with that value and modulus satisfies
    every constraint and has isNotDivisible = flag. *)
Theorem X6_ModulusCheck_output_is_free (n : nat) (value modulus flag : Z) :
  ~ (modulus == 0) -> flag = 0 \/ flag = 1 ->
  exists s : ModulusCheck.signals,
    ModulusCheck.value s = value /\ ModulusCheck.modulus s = modulus
    /\ ModulusCheck.constraints n s = true
    /\ ModulusCheck.isNotDivisible s = flag.
Proof.
  intros Hm Hf. exists (chosen_ModulusCheck value modulus flag).
  split; [reflexivity|]. split; [reflexivity|]. split.
  - apply chosen_ModulusCheck_ok; assumption.
  - apply chosen_ModulusCheck_out; exact Hf.
Qed.

(** X6 at value 7, modulus 3, flag 0: 7 is declared divisible by 3. *)
Lemma X6_ModulusCheck_output_is_free_witness :
  ~ (3 == 0)
  /\ exists s : ModulusCheck.signals,
       ModulusCheck.value s = 7 /\ ModulusCheck.modulus s = 3
       /\ ModulusCheck.constraints 20 s = true
       /\ ModulusCheck.isNotDivisible s = 0.
Proof.
  assert (H : ~ (3 == 0)) by (intros E; discriminate E).
  exact (conj H (X6_ModulusCheck_output_is_free 20 7 3 0 H (or_introl eq_refl))).
Defined.

(** X7. ModulusCheck under the honest witness computation, for a modulus
    m with 0 < m < Fr: the constraints hold, and isNotDivisible is 1 when
    m does not divide value and 0 when it does. *)
Theorem X7_ModulusCheck_honest (n : nat) (value m : Z) :
  0 < m < Fr ->
  ModulusCheck.constraints n (ModulusCheck.witness n value m) = true
  /\ ((~ (m | value)
       /\ ModulusCheck.isNotDivisible (ModulusCheck.witness n value m) = 1)
      \/ ((m | value)
          /\ ModulusCheck.isNotDivisible (ModulusCheck.witness n value m) = 0)).
Proof.
  intros Hm. split; [apply ModulusCheck_witness_ok; exact Hm|].
  rewrite ModulusCheck_witness_out by exact Hm.
  destruct (Z.eqb_spec (value mod m) 0) as [E|E].
  - right. split; [|reflexivity]. apply Z.mod_divide; [lia|exact E].
  - left. split; [|reflexivity]. intros Hd. apply E.
    apply Z.mod_divide; [lia|exact Hd].
Qed.

(** X7 at value 32770, modulus 5. *)
Lemma X7_ModulusCheck_honest_witness :
  0 < 5 < Fr
  /\ ModulusCheck.constraints 20 (ModulusCheck.witness 20 32770 5) = true.
Proof.
  assert (H : 0 < 5 < Fr) by (split; reflexivity).
  exact (conj H (proj1 (X7_ModulusCheck_honest 20 32770 5 H))).
Defined.

Lemma chosen_checks x :
  SimplePrimalityTest.checks (chosen_SimplePrimalityTest x)
  = map (fun _ => 1) SimplePrimalityTest.primes.
Proof.
  unfold chosen_SimplePrimalityTest; cbn [SimplePrimalityTest.checks].
  rewrite map_map. apply map_ext. intros pr.
  apply chosen_ModulusCheck_out. right; reflexivity.
Qed.

Lemma chosen_isPrime x :
  SimplePrimalityTest.isPrime (chosen_SimplePrimalityTest x) = 1.
Proof.
  pose proof (chosen_checks x) as Hc.
  unfold chosen_SimplePrimalityTest in *.
  cbn [SimplePrimalityTest.isPrime SimplePrimalityTest.checks] in *.
  rewrite Hc. vm_compute. reflexivity.
Qed.

Lemma chosen_SimplePrimalityTest_ok x :
  SimplePrimalityTest.constraints (chosen_SimplePrimalityTest x) = true.
Proof.
  unfold SimplePrimalityTest.constraints, chosen_SimplePrimalityTest.
  cbn [SimplePrimalityTest.checks SimplePrimalityTest.modChecks
       SimplePrimalityTest.accumulated SimplePrimalityTest.n
       SimplePrimalityTest.isPrime].
  set (f := fun pr => chosen_ModulusCheck x (fconst pr) 1).
  rewrite !andb_true_iff. split_and.
  - unfold f. rewrite !length_map. reflexivity.
  - unfold f. rewrite !length_map. reflexivity.
  - rewrite length_accumulation, !length_map. reflexivity.
  - apply forallb_forall. intros i Hi. apply in_seq in Hi.
    assert (Hlt : (i < length SimplePrimalityTest.primes)%nat)
      by (rewrite primes_length; lia).
    rewrite (nth_map_default f _ i 0) by exact Hlt.
    rewrite (nth_map_default ModulusCheck.isNotDivisible _ i ModulusCheck.zero)
      by (rewrite length_map; exact Hlt).
    rewrite (nth_map_default f _ i 0) by exact Hlt.
    rewrite !andb_true_iff. split_and; try (apply feq_iff; reflexivity).
    unfold f. apply chosen_ModulusCheck_ok; [|right; reflexivity].
    destruct (fconst_prime (nth i SimplePrimalityTest.primes 0)) as [-> Hb];
      [apply nth_In; exact Hlt|]. apply small_not_zero; exact Hb.
  - apply feq_iff. destruct (map _ _); reflexivity.
  - apply forallb_forall. intros i Hi. apply in_seq in Hi.
    apply feq_iff. rewrite accumulation_step; [reflexivity|].
    rewrite !length_map, primes_length. lia.
  - apply feq_iff. reflexivity.
Qed.

(** X8. The primality gadget accepts everything: for every input x,
    SimplePrimalityTest has a satisfying assignment with n = x and
    isPrime = 1. *)
Theorem X8_SimplePrimalityTest_accepts_any_input (x : Z) :
  exists s : SimplePrimalityTest.signals,
    SimplePrimalityTest.n s = x
    /\ SimplePrimalityTest.constraints s = true
    /\ SimplePrimalityTest.isPrime s = 1.
Proof.
  exists (chosen_SimplePrimalityTest x).
  split; [reflexivity|]. split.
  - apply chosen_SimplePrimalityTest_ok.
  - apply chosen_isPrime.
Qed.

(** X9. The composite circuit does not enforce primality: for all p, q in
    [32768, 65535] with p <> q, prime or not, RSASetupVerifier (bit length
    16) has a satisfying assignment with these p and q and n = p * q. *)
Theorem X9_circuit_satisfiable_without_primality (p q : Z) :
  32768 <= p <= 65535 -> 32768 <= q <= 65535 -> p <> q ->
  exists s : RSASetupVerifier.signals,
    RSASetupVerifier.p s = p /\ RSASetupVerifier.q s = q
    /\ RSASetupVerifier.n s = p * q
    /\ ZKRSAVerifier.circuit_constraints (ZKRSAVerifier.__init__ 16) s = true.
Proof.
  intros Hp Hq Hne. pose proof Fr_large as HFr.
  exists (chosen_RSASetupVerifier 32768 65535 p q).
  destruct (range_check_witness p Hp) as (HgeP & HgePo & HleP & HlePo).
  destruct (range_check_witness q Hq) as (HgeQ & HgeQo & HleQ & HleQo).
  assert (Heq : IsEqual.out (IsEqual.witness (p, q)) = 0).
  { rewrite IsEqual_witness_out by lia.
    destruct (p =? q) eqn:E; [apply Z.eqb_eq in E; contradiction|reflexivity]. }
  split; [reflexivity|]. split; [reflexivity|]. split.
  { cbn [chosen_RSASetupVerifier RSASetupVerifier.n RSASetupVerifier.witness].
    unfold fmul. apply Z.mod_small. nia. }
  unfold ZKRSAVerifier.circuit_constraints, RSASetupVerifier.constraints.
  change (ZKRSAVerifier.min_value (ZKRSAVerifier.__init__ 16)) with 32768.
  change (ZKRSAVerifier.max_value (ZKRSAVerifier.__init__ 16)) with 65535.
  unfold chosen_RSASetupVerifier, RSASetupVerifier.witness.
  cbn [RSASetupVerifier.p RSASetupVerifier.q RSASetupVerifier.n
       RSASetupVerifier.validP RSASetupVerifier.validQ
       RSASetupVerifier.geP RSASetupVerifier.leP RSASetupVerifier.geQ
       RSASetupVerifier.leQ RSASetupVerifier.eq RSASetupVerifier.different
       RSASetupVerifier.primeP RSASetupVerifier.primeQ RSASetupVerifier.valid].
  rewrite HgeP, HleP, HgeQ, HleQ, IsEqual_witness_ok,
    !chosen_SimplePrimalityTest_ok.
  rewrite HgePo, HlePo, HgeQo, HleQo, Heq, !chosen_isPrime.
  rewrite fsub_1_0, !fmul_1_1.
  rewrite !andb_true_iff. split_and; try reflexivity; apply feq_iff; reflexivity.
Qed.

(** X9 at p = 32768 = 2^15 and q = 32770. *)
Lemma X9_circuit_satisfiable_without_primality_witness :
  32768 <= 32768 <= 65535 /\ 32768 <= 32770 <= 65535 /\ 32768 <> 32770
  /\ exists s : RSASetupVerifier.signals,
       RSASetupVerifier.p s = 32768 /\ RSASetupVerifier.q s = 32770
       /\ RSASetupVerifier.n s = 32768 * 32770
       /\ ZKRSAVerifier.circuit_constraints (ZKRSAVerifier.__init__ 16) s = true.
Proof.
  assert (H1 : 32768 <= 32768 <= 65535) by (split; intros E; discriminate E).
  assert (H2 : 32768 <= 32770 <= 65535) by (split; intros E; discriminate E).
  assert (H3 : 32768 <> 32770) by discriminate.
  exact (conj H1 (conj H2 (conj H3
           (X9_circuit_satisfiable_without_primality 32768 32770 H1 H2 H3)))).
Defined.

(** ** What every satisfying assignment of the composite circuit has *)

(** The two comparators on one operand x, against constants lo and hi that
    are 16-bit numbers: when their conjunction is not zero, lo <= x <= hi. *)
Lemma range_check_sound_gen ge le x vld lo hi :
  0 <= lo < 65536 -> 0 <= hi < 65536 ->
  GreaterEqThan.constraints 16 ge = true ->
  fst (GreaterEqThan.in_ ge) == x -> snd (GreaterEqThan.in_ ge) == lo ->
  LessEqThan.constraints 16 le = true ->
  fst (LessEqThan.in_ le) == x -> snd (LessEqThan.in_ le) == hi ->
  vld == GreaterEqThan.out ge * LessEqThan.out le ->
  ~ (vld == 0) -> 0 <= x < Fr -> lo <= x <= hi.
Proof.
  intros Hlo Hhi Hge Hge0 Hge1 Hle Hle0 Hle1 Hv Hnz Hx.
  pose proof Fr_large as HFr.
  rewrite Hv in Hnz.
  pose proof (eqm_mul_nonzero_l _ _ Hnz) as Hgo.
  pose proof (eqm_mul_nonzero_r _ _ Hnz) as Hlo'.
  apply GreaterEqThan_sound in Hge as (v & Hvb & Hveq & Hvc).
  apply LessEqThan_sound in Hle as (v' & Hvb' & Hveq' & Hvc').
  rewrite fshl_1_16, Hge0, Hge1 in Hveq. rewrite fshl_1_16, Hle0, Hle1 in Hveq'.
  change (2 ^ Z.of_nat 17) with 131072 in *.
  change (2 ^ Z.of_nat 16) with 65536 in *.
  destruct Hvc as [[Ho _]|[_ Hv16]]; [contradiction|].
  destruct Hvc' as [[Ho _]|[_ Hv16']]; [contradiction|].
  apply eqm_ex in Hveq as [k Hk]. apply eqm_ex in Hveq' as [k' Hk'].
  assert (Hk0 : k = 0).
  { assert (Hc : k <= -1 \/ k = 0 \/ 1 <= k) by lia.
    destruct Hc as [Hc|[Hc|Hc]]; [nia|exact Hc|nia]. }
  assert (Hk0' : k' = 0).
  { assert (Hc : k' <= -1 \/ k' = 0 \/ 1 <= k') by lia.
    destruct Hc as [Hc|[Hc|Hc]]; [nia|exact Hc|nia]. }
  subst k k'. lia.
Qed.

Lemma product_one_third a b c d e : a * b * c * d * e == 1 -> ~ (c == 0).
Proof.
  intros H H0. apply one_not_zero. rewrite <- H, H0. apply eqm_of_eq; ring.
Qed.

Lemma product_one_fourth a b c d e : a * b * c * d * e == 1 -> ~ (d == 0).
Proof.
  intros H H0. apply one_not_zero. rewrite <- H, H0. apply eqm_of_eq; ring.
Qed.

Lemma product_one_fifth a b c d e : a * b * c * d * e == 1 -> ~ (e == 0).
Proof.
  intros H H0. apply one_not_zero. rewrite <- H, H0. apply eqm_of_eq; ring.
Qed.

(** The facts that every satisfying assignment yields, for constants lo
    and hi of 16 bits: the operands are in [lo, hi] and differ, n is
    their product in the field, and neither isPrime output is zero. *)
Lemma circuit_sound lo hi s :
  0 <= lo < 65536 -> 0 <= hi < 65536 ->
  RSASetupVerifier.constraints lo hi s = true ->
  0 <= RSASetupVerifier.p s < Fr -> 0 <= RSASetupVerifier.q s < Fr ->
  lo <= RSASetupVerifier.p s <= hi /\ lo <= RSASetupVerifier.q s <= hi
  /\ RSASetupVerifier.p s <> RSASetupVerifier.q s
  /\ RSASetupVerifier.n s == RSASetupVerifier.p s * RSASetupVerifier.q s
  /\ ~ (SimplePrimalityTest.isPrime (RSASetupVerifier.primeP s) == 0)
  /\ ~ (SimplePrimalityTest.isPrime (RSASetupVerifier.primeQ s) == 0).
Proof.
  unfold RSASetupVerifier.constraints.
  intros Hlo Hhi H Hp Hq. rewrite !andb_true_iff in H.
  repeat match goal with H : _ /\ _ |- _ => destruct H end.
  match goal with H : IsEqual.constraints _ = true |- _ =>
    apply IsEqual_sound in H as [Heq1 _] end.
  repeat match goal with
         | H : feq _ _ = true |- _ => apply feq_iff in H
         end.
  repeat match goal with
         | H : _ == fconst _ |- _ => rewrite fconst_eqm in H
         end.
  repeat match goal with
         | H : context [fmul _ _] |- _ => rewrite fmul_eqm in H
         end.
  assert (Hprod : RSASetupVerifier.validP s * RSASetupVerifier.validQ s
                  * RSASetupVerifier.different s
                  * SimplePrimalityTest.isPrime (RSASetupVerifier.primeP s)
                  * SimplePrimalityTest.isPrime (RSASetupVerifier.primeQ s) == 1).
  { match goal with
    | H1 : RSASetupVerifier.valid s == 1,
      H2 : RSASetupVerifier.valid s == _ * _ |- _ =>
        rewrite <- H1, H2
    end.
    reflexivity. }
  pose proof (product_one_nonzero _ _ _ _ _ Hprod) as [HvP HvQ].
  pose proof (product_one_third _ _ _ _ _ Hprod) as Hd.
  pose proof (product_one_fourth _ _ _ _ _ Hprod) as HpP.
  pose proof (product_one_fifth _ _ _ _ _ Hprod) as HpQ.
  refine (conj _ (conj _ (conj _ (conj _ (conj _ _))))); try assumption.
  - apply (range_check_sound_gen (RSASetupVerifier.geP s) (RSASetupVerifier.leP s)
             (RSASetupVerifier.p s) (RSASetupVerifier.validP s) lo hi);
      try assumption; lia.
  - apply (range_check_sound_gen (RSASetupVerifier.geQ s) (RSASetupVerifier.leQ s)
             (RSASetupVerifier.q s) (RSASetupVerifier.validQ s) lo hi);
      try assumption; lia.
  - intros E. apply Hd.
    match goal with H : RSASetupVerifier.different s == fsub _ _ |- _ =>
      rewrite H, fsub_eqm end.
    rewrite Heq1; [apply eqm_of_eq; ring|].
    match goal with
    | H1 : fst (IsEqual.in_ _) == _, H2 : snd (IsEqual.in_ _) == _ |- _ =>
        rewrite H1, H2, E
    end.
    reflexivity.
Qed.

(** X10. In every assignment that satisfies RSASetupVerifier (bit length
    16) and whose p, q and n are field elements: p and q lie in
    [32768, 65535], p <> q, and the public output n is the integer
    product p * q, so 2^30 <= n < 2^32. *)
Theorem X10_public_output_is_product (s : RSASetupVerifier.signals) :
  ZKRSAVerifier.circuit_constraints (ZKRSAVerifier.__init__ 16) s = true ->
  0 <= RSASetupVerifier.p s < Fr ->
  0 <= RSASetupVerifier.q s < Fr ->
  0 <= RSASetupVerifier.n s < Fr ->
  32768 <= RSASetupVerifier.p s <= 65535
  /\ 32768 <= RSASetupVerifier.q s <= 65535
  /\ RSASetupVerifier.p s <> RSASetupVerifier.q s
  /\ RSASetupVerifier.n s = RSASetupVerifier.p s * RSASetupVerifier.q s
  /\ 2 ^ 30 <= RSASetupVerifier.n s < 2 ^ 32.
Proof.
  unfold ZKRSAVerifier.circuit_constraints.
  change (ZKRSAVerifier.min_value (ZKRSAVerifier.__init__ 16)) with 32768.
  change (ZKRSAVerifier.max_value (ZKRSAVerifier.__init__ 16)) with 65535.
  intros Hs Hp Hq Hn. pose proof Fr_large as HFr.
  destruct (circuit_sound 32768 65535 s ltac:(lia) ltac:(lia) Hs Hp Hq)
    as (Hrp & Hrq & Hne & Hprod & _).
  assert (E : RSASetupVerifier.n s = RSASetupVerifier.p s * RSASetupVerifier.q s)
    by (apply eqm_small; [exact Hn|nia|exact Hprod]).
  change (2 ^ 30) with 1073741824. change (2 ^ 32) with 4294967296.
  refine (conj _ (conj _ (conj _ (conj _ _)))); try assumption; rewrite E; nia.
Qed.

(** X10 at the honest witness of p = 32771, q = 32779. *)
Lemma X10_public_output_is_product_witness :
  let s := circuit_witness (__init__ 16) 32771 32779 in
  circuit_constraints (__init__ 16) s = true
  /\ RSASetupVerifier.n s = RSASetupVerifier.p s * RSASetupVerifier.q s.
Proof.
  intros s.
  assert (H1 : circuit_constraints (__init__ 16) s = true)
    by (apply (honest_witness_ok 32771 32779); try lia;
        vm_compute; reflexivity).
  assert (H2 : 0 <= RSASetupVerifier.p s < Fr)
    by (change (RSASetupVerifier.p s) with 32771;
        split; [intros E; discriminate E|reflexivity]).
  assert (H3 : 0 <= RSASetupVerifier.q s < Fr)
    by (change (RSASetupVerifier.q s) with 32779;
        split; [intros E; discriminate E|reflexivity]).
  assert (H4 : 0 <= RSASetupVerifier.n s < Fr)
    by (change (RSASetupVerifier.n s) with (fmul 32771 32779);
        split; [intros E; discriminate E|reflexivity]).
  pose proof (X10_public_output_is_product s H1 H2 H3 H4) as (_ & _ & _ & E & _).
  exact (conj H1 E).
Defined.

(** ** The bit length and the 16-bit comparators *)

(** The honest LessThan(n) on operands that need not be n-bit numbers:
    it is enough that in[0] + 2^n - in[1] is an (n+1)-bit number. *)
Lemma diff_wide n a b : 2 ^ Z.of_nat (S n) <= Fr ->
  0 <= a + 2 ^ Z.of_nat n - b < 2 ^ Z.of_nat (S n) ->
  LessThan.diff n (a, b) = a + 2 ^ Z.of_nat n - b.
Proof.
  intros Hn Hd. pose proof (pow2_pos n) as Hp.
  rewrite Nat2Z.inj_succ, Z.pow_succ_r in Hn, Hd by lia.
  unfold LessThan.diff; cbn [fst snd].
  rewrite fshl_1 by lia. apply eqm_mod_small; [lia|].
  rewrite fadd_eqm. reflexivity.
Qed.

Lemma LessThan_witness_wide n a b : 2 ^ Z.of_nat (S n) <= Fr ->
  0 <= a + 2 ^ Z.of_nat n - b < 2 ^ Z.of_nat (S n) ->
  LessThan.constraints n (LessThan.witness n (a, b)) = true
  /\ LessThan.out (LessThan.witness n (a, b)) = if a <? b then 1 else 0.
Proof.
  intros Hn Hd. pose proof (pow2_pos n) as Hp. split.
  - unfold LessThan.constraints. rewrite !andb_true_iff. split_and.
    + apply feq_iff. reflexivity.
    + cbn [LessThan.witness LessThan.n2b]. apply Num2Bits_witness_ok.
      rewrite diff_wide by assumption. rewrite Nat.add_1_r. exact Hd.
    + apply feq_iff. reflexivity.
  - unfold LessThan.witness, Num2Bits.witness.
    cbn [LessThan.out Num2Bits.out].
    rewrite nth_bits by lia. rewrite bit_spec, diff_wide by assumption.
    rewrite Nat2Z.inj_succ, Z.pow_succ_r in Hd by lia.
    destruct (a <? b) eqn:E; [apply Z.ltb_lt in E|apply Z.ltb_ge in E].
    + rewrite Z.div_small by lia. rewrite Z.mod_0_l by lia. apply fsub_1_0.
    + assert (Hq : (a + 2 ^ Z.of_nat n - b) / 2 ^ Z.of_nat n = 1).
      { symmetry. apply (Z.div_unique _ _ 1 (a - b)); lia. }
      rewrite Hq. change (1 mod 2) with 1. apply fsub_1_1.
Qed.

(** The two range checks of the circuit, computed for an operand of
    [lo, hi], when hi - lo is below 2^16. *)
Lemma range_check_witness_gen lo hi x :
  0 <= lo -> hi < 2 ^ 128 -> hi - lo < 65536 -> lo <= x <= hi ->
  GreaterEqThan.constraints 16 (GreaterEqThan.witness 16 (x, fconst lo)) = true
  /\ GreaterEqThan.out (GreaterEqThan.witness 16 (x, fconst lo)) = 1
  /\ LessEqThan.constraints 16 (LessEqThan.witness 16 (x, fconst hi)) = true
  /\ LessEqThan.out (LessEqThan.witness 16 (x, fconst hi)) = 1.
Proof.
  intros Hlo Hhi Hw Hx. pose proof pow_17_le_Fr as H17.
  rewrite !fconst_small by lia.
  assert (Hge : 0 <= x + 2 ^ Z.of_nat 16 - lo < 2 ^ Z.of_nat 17)
    by (change (2 ^ Z.of_nat 16) with 65536;
        change (2 ^ Z.of_nat 17) with 131072; lia).
  assert (Hle : 0 <= hi + 2 ^ Z.of_nat 16 - x < 2 ^ Z.of_nat 17)
    by (change (2 ^ Z.of_nat 16) with 65536;
        change (2 ^ Z.of_nat 17) with 131072; lia).
  destruct (LessThan_witness_wide 16 x lo H17 Hge) as [Hc1 Ho1].
  destruct (LessThan_witness_wide 16 hi x H17 Hle) as [Hc2 Ho2].
  split_and.
  - unfold GreaterEqThan.constraints. rewrite !andb_true_iff.
    split_and; try (apply feq_iff; reflexivity). exact Hc1.
  - unfold GreaterEqThan.witness; cbn [GreaterEqThan.out fst snd].
    rewrite Ho1.
    destruct (x <? lo) eqn:E; [apply Z.ltb_lt in E; lia|apply fsub_1_0].
  - unfold LessEqThan.constraints. rewrite !andb_true_iff.
    split_and; try (apply feq_iff; reflexivity). exact Hc2.
  - unfold LessEqThan.witness; cbn [LessEqThan.out fst snd].
    rewrite Ho2.
    destruct (hi <? x) eqn:E; [apply Z.ltb_lt in E; lia|apply fsub_1_0].
Qed.

Lemma honest_witness_ok_gen lo hi p q :
  0 <= lo -> hi < 2 ^ 128 -> hi - lo < 65536 -> lo <= p <= hi -> lo <= q <= hi ->
  SimplePrimalityTest.passes_trial_division p = true ->
  SimplePrimalityTest.passes_trial_division q = true ->
  p <> q ->
  RSASetupVerifier.constraints lo hi (RSASetupVerifier.witness lo hi p q) = true.
Proof.
  intros Hlo Hhi Hw Hp Hq Hpp Hpq Hne. pose proof Fr_large as HFr.
  change (2 ^ 128) with 340282366920938463463374607431768211456 in Hhi.
  assert (Hhi' : hi < 2 ^ 128)
    by (change (2 ^ 128) with 340282366920938463463374607431768211456; exact Hhi).
  destruct (range_check_witness_gen lo hi p Hlo Hhi' Hw Hp) as (HgeP & HgePo & HleP & HlePo).
  destruct (range_check_witness_gen lo hi q Hlo Hhi' Hw Hq) as (HgeQ & HgeQo & HleQ & HleQo).
  assert (Heq : IsEqual.out (IsEqual.witness (p, q)) = 0).
  { rewrite IsEqual_witness_out by lia.
    destruct (p =? q) eqn:E; [apply Z.eqb_eq in E; contradiction|reflexivity]. }
  assert (HprP : SimplePrimalityTest.isPrime (SimplePrimalityTest.witness p) = 1)
    by (rewrite isPrime_witness, Hpp; reflexivity).
  assert (HprQ : SimplePrimalityTest.isPrime (SimplePrimalityTest.witness q) = 1)
    by (rewrite isPrime_witness, Hpq; reflexivity).
  unfold RSASetupVerifier.constraints, RSASetupVerifier.witness.
  cbn [RSASetupVerifier.p RSASetupVerifier.q RSASetupVerifier.n
       RSASetupVerifier.validP RSASetupVerifier.validQ
       RSASetupVerifier.geP RSASetupVerifier.leP RSASetupVerifier.geQ
       RSASetupVerifier.leQ RSASetupVerifier.eq RSASetupVerifier.different
       RSASetupVerifier.primeP RSASetupVerifier.primeQ RSASetupVerifier.valid].
  rewrite HgeP, HleP, HgeQ, HleQ, IsEqual_witness_ok, !SimplePrimalityTest_witness_ok.
  rewrite HgePo, HlePo, HgeQo, HleQo, Heq, HprP, HprQ.
  rewrite fsub_1_0, !fmul_1_1.
  rewrite !andb_true_iff. split_and; try reflexivity; apply feq_iff; reflexivity.
Qed.

Lemma bit_length_bounds bl lo hi : lo <= bl <= hi -> 1 <= lo ->
  2 ^ (lo - 1) <= min_value (__init__ bl)
  /\ max_value (__init__ bl) = 2 * min_value (__init__ bl) - 1
  /\ min_value (__init__ bl) <= 2 ^ (hi - 1).
Proof.
  intros Hb Hlo. cbn [__init__ min_value max_value]. split_and.
  - apply Z.pow_le_mono_r; lia.
  - replace bl with (Z.succ (bl - 1)) at 1 by lia.
    rewrite Z.pow_succ_r by lia. reflexivity.
  - apply Z.pow_le_mono_r; lia.
Qed.

Lemma not_rejected_iff self p q :
  ~ rejected self p q
  <-> _is_prime p = true /\ _is_prime q = true /\ p <> q
      /\ in_range self p /\ in_range self q.
Proof.
  unfold rejected, in_range. split.
  - intros H.
    destruct (_is_prime p) eqn:Ep; [|exfalso; apply H; auto].
    destruct (_is_prime q) eqn:Eq; [|exfalso; apply H; auto].
    split; [reflexivity|]. split; [reflexivity|]. split; [intros E; apply H; auto|].
    split.
    + destruct (Z_le_dec (min_value self) p), (Z_le_dec p (max_value self));
        try lia; exfalso; apply H; right; right; right; left; lia.
    + destruct (Z_le_dec (min_value self) q), (Z_le_dec q (max_value self));
        try lia; exfalso; apply H; right; right; right; right; lia.
  - intros (Hp & Hq & Hne & Hrp & Hrq) [H|[H|[H|[H|H]]]];
      try congruence; contradiction.
Qed.

(** X11. For a bit length from 9 to 16 the Python validation and the
    circuit agree: for field elements p and q, the witness computed by the
    circuit's own rules satisfies the circuit generated for that bit
    length exactly when generate_proof's validation does not reject
    (p, q). *)
Theorem X11_validation_mirrors_circuit (bl p q : Z) :
  9 <= bl <= 16 -> 0 <= p < Fr -> 0 <= q < Fr ->
  circuit_constraints (__init__ bl) (circuit_witness (__init__ bl) p q) = true
  <-> ~ rejected (__init__ bl) p q.
Proof.
  intros Hbl Hp Hq.
  destruct (bit_length_bounds bl 9 16 Hbl ltac:(lia)) as (Hlo & Hmax & Hhi).
  change (2 ^ (9 - 1)) with 256 in Hlo. change (2 ^ (16 - 1)) with 32768 in Hhi.
  rewrite not_rejected_iff. unfold in_range, circuit_constraints, circuit_witness.
  set (lo := min_value (__init__ bl)) in *.
  set (hi := max_value (__init__ bl)) in *.
  split.
  - intros Hs.
    destruct (circuit_sound lo hi _ ltac:(lia) ltac:(lia) Hs Hp Hq)
      as (Hrp & Hrq & Hne & _ & HpP & HpQ).
    cbn [RSASetupVerifier.witness RSASetupVerifier.p RSASetupVerifier.q
         RSASetupVerifier.primeP RSASetupVerifier.primeQ] in *.
    rewrite isPrime_witness in HpP, HpQ.
    assert (Hpp : SimplePrimalityTest.passes_trial_division p = true).
    { destruct (SimplePrimalityTest.passes_trial_division p); [reflexivity|].
      exfalso. apply HpP. reflexivity. }
    assert (Hpq : SimplePrimalityTest.passes_trial_division q = true).
    { destruct (SimplePrimalityTest.passes_trial_division q); [reflexivity|].
      exfalso. apply HpQ. reflexivity. }
    apply passes_iff_prime_in_range in Hpp; [|lia].
    apply passes_iff_prime_in_range in Hpq; [|lia].
    rewrite !_is_prime_correct. auto.
  - intros (Hpp & Hpq & Hne & Hrp & Hrq).
    apply _is_prime_correct in Hpp, Hpq.
    apply honest_witness_ok_gen; try lia;
      try (change (2 ^ 128) with 340282366920938463463374607431768211456; lia).
    + apply passes_iff_prime_in_range; [lia|exact Hpp].
    + apply passes_iff_prime_in_range; [lia|exact Hpq].
Qed.

(** X11 at bit length 12, p = 2053, q = 2063. *)
Lemma X11_validation_mirrors_circuit_witness :
  9 <= 12 <= 16 /\ 0 <= 2053 < Fr /\ 0 <= 2063 < Fr
  /\ (circuit_constraints (__init__ 12) (circuit_witness (__init__ 12) 2053 2063)
      = true <-> ~ rejected (__init__ 12) 2053 2063).
Proof.
  assert (H1 : 9 <= 12 <= 16) by (split; intros E; discriminate E).
  assert (H2 : 0 <= 2053 < Fr) by (split; [intros E; discriminate E|reflexivity]).
  assert (H3 : 0 <= 2063 < Fr) by (split; [intros E; discriminate E|reflexivity]).
  exact (conj H1 (conj H2 (conj H3
           (X11_validation_mirrors_circuit 12 2053 2063 H1 H2 H3)))).
Defined.

(** X12. For a bit length from 1 to 8 validation and circuit disagree on
    every accepted input: whenever generate_proof's validation does not
    reject (p, q), the witness computed by the circuit's own rules
    violates the circuit, because an accepted p is a prime of at most 251,
    an entry of the gadget's table, which divides itself. *)
Theorem X12_small_bit_lengths_never_satisfy (bl p q : Z) :
  1 <= bl <= 8 -> ~ rejected (__init__ bl) p q ->
  circuit_constraints (__init__ bl) (circuit_witness (__init__ bl) p q) = false.
Proof.
  intros Hbl Hacc. pose proof Fr_large as HFr.
  destruct (bit_length_bounds bl 1 8 Hbl ltac:(lia)) as (Hlo & Hmax & Hhi).
  change (2 ^ (1 - 1)) with 1 in Hlo. change (2 ^ (8 - 1)) with 128 in Hhi.
  apply not_rejected_iff in Hacc as (Hpp & _ & _ & Hrp & Hrq).
  unfold in_range, circuit_constraints, circuit_witness in *.
  set (lo := min_value (__init__ bl)) in *.
  set (hi := max_value (__init__ bl)) in *.
  destruct (RSASetupVerifier.constraints lo hi
              (RSASetupVerifier.witness lo hi p q)) eqn:Hs; [|reflexivity].
  exfalso.
  destruct (circuit_sound lo hi _ ltac:(lia) ltac:(lia) Hs) as (_ & _ & _ & _ & HpP & _);
    cbn [RSASetupVerifier.witness RSASetupVerifier.p RSASetupVerifier.q] in *;
    try lia.
  cbn [RSASetupVerifier.witness RSASetupVerifier.primeP] in HpP.
  rewrite isPrime_witness in HpP.
  apply _is_prime_correct in Hpp.
  assert (Hin : In p SimplePrimalityTest.primes)
    by (apply primes_complete; [exact Hpp|lia]).
  destruct (SimplePrimalityTest.passes_trial_division p) eqn:E;
    [|apply HpP; reflexivity].
  rewrite passes_iff in E. apply (E p Hin). apply Z.divide_refl.
Qed.

(** X12 at bit length 8, p = 131, q = 137. *)
Lemma X12_small_bit_lengths_never_satisfy_witness :
  1 <= 8 <= 8 /\ ~ rejected (__init__ 8) 131 137
  /\ circuit_constraints (__init__ 8) (circuit_witness (__init__ 8) 131 137) = false.
Proof.
  assert (H1 : 1 <= 8 <= 8) by (split; intros E; discriminate E).
  assert (H2 : ~ rejected (__init__ 8) 131 137).
  { apply not_rejected_iff. unfold in_range. cbn [__init__ min_value max_value].
    split; [reflexivity|]. split; [reflexivity|]. split; [discriminate|].
    split; split; intros E; discriminate E. }
  exact (conj H1 (conj H2 (X12_small_bit_lengths_never_satisfy 8 131 137 H1 H2))).
Defined.

Lemma passes_prime_above x : Z.prime x -> 251 < x ->
  SimplePrimalityTest.passes_trial_division x = true.
Proof.
  intros Hx Hgt. apply passes_iff_prime. intros d Hd Hle Hdiv.
  pose proof (Z.prime_ge_2 _ Hd).
  apply (Z.divide_prime_r d x Hx) in Hdiv. lia.
Qed.

Lemma passes_product_above a b : Z.prime a -> Z.prime b -> 251 < a -> 251 < b ->
  SimplePrimalityTest.passes_trial_division (a * b) = true.
Proof.
  intros Ha Hb Hga Hgb. apply passes_iff_prime. intros d Hd Hle Hdiv.
  pose proof (Z.prime_ge_2 _ Hd).
  apply Z.divide_prime_mul in Hdiv; [|exact Hd]. destruct Hdiv as [Hdiv|Hdiv].
  - apply (Z.divide_prime_r d a Ha) in Hdiv. lia.
  - apply (Z.divide_prime_r d b Hb) in Hdiv. lia.
Qed.

(** X13. At bit length 17 the circuit accepts composite numbers that the
    Python validation rejects.  min_value = 65536 and max_value = 131071
    still go through the 16-bit comparators, but the operands now exceed
    257^2: for primes a and b above 251 with a * b in [65536, 131071] and
    a prime q of that range, the witness computed for (a * b, q)
    satisfies every constraint of the circuit, while generate_proof
    rejects (a * b, q). *)
Theorem X13_bit_length_17_admits_composites (a b q : Z) :
  Z.prime a -> Z.prime b -> 251 < a -> 251 < b ->
  65536 <= a * b <= 131071 ->
  Z.prime q -> 65536 <= q <= 131071 ->
  circuit_constraints (__init__ 17) (circuit_witness (__init__ 17) (a * b) q) = true
  /\ rejected (__init__ 17) (a * b) q.
Proof.
  intros Ha Hb Hga Hgb Hab Hq Hrq.
  assert (Hcomp : ~ Z.prime (a * b)).
  { intros [_ Hrel]. apply (Hrel a); [nia|]. exists b. ring. }
  split.
  - unfold circuit_constraints, circuit_witness.
    change (min_value (__init__ 17)) with 65536.
    change (max_value (__init__ 17)) with 131071.
    apply honest_witness_ok_gen; [lia|reflexivity|lia|lia|lia| | |].
    + apply passes_product_above; assumption.
    + apply passes_prime_above; [exact Hq|lia].
    + intros E. apply Hcomp. rewrite E. exact Hq.
  - left. destruct (_is_prime (a * b)) eqn:E; [|reflexivity].
    exfalso. apply Hcomp. apply _is_prime_correct. exact E.
Qed.

(** X13 at a = b = 257 and q = 65537: the composite 66049. *)
Lemma X13_bit_length_17_admits_composites_witness :
  circuit_constraints (__init__ 17) (circuit_witness (__init__ 17) (257 * 257) 65537)
  = true
  /\ rejected (__init__ 17) (257 * 257) 65537.
Proof.
  assert (Hq : Z.prime 65537) by (apply _is_prime_correct; vm_compute; reflexivity).
  assert (H1 : 251 < 257) by reflexivity.
  assert (H2 : 65536 <= 257 * 257 <= 131071) by (split; intros E; discriminate E).
  assert (H3 : 65536 <= 65537 <= 131071) by (split; intros E; discriminate E).
  exact (X13_bit_length_17_admits_composites 257 257 65537
           prime_257 prime_257 H1 H1 H2 Hq H3).
Defined.

(** X14. For a bit length from 18 to 253 the generated circuit has no
    satisfying assignment at all: the comparators stay 16 bits wide while
    max_value - min_value grows beyond what GreaterEqThan(16) against
    min_value and LessEqThan(16) against max_value can both decompose. *)
Theorem X14_large_bit_lengths_unsatisfiable (bl : Z) (s : RSASetupVerifier.signals) :
  18 <= bl <= 253 -> circuit_constraints (__init__ bl) s = false.
Proof.
  intros Hbl. pose proof Fr_bounds as HFr.
  destruct (bit_length_bounds bl 18 253 Hbl ltac:(lia)) as (Hlo & Hmax & Hhi).
  change (2 ^ (18 - 1)) with 131072 in Hlo.
  unfold circuit_constraints.
  set (lo := min_value (__init__ bl)) in *.
  set (hi := max_value (__init__ bl)) in *.
  destruct (RSASetupVerifier.constraints lo hi s) eqn:Hs; [|reflexivity].
  exfalso. unfold RSASetupVerifier.constraints in Hs.
  rewrite !andb_true_iff in Hs.
  repeat match goal with H : _ /\ _ |- _ => destruct H end.
  repeat match goal with
         | H : feq _ _ = true |- _ => apply feq_iff in H
         end.
  repeat match goal with
         | H : _ == fconst _ |- _ => rewrite fconst_eqm in H
         end.
  match goal with H : GreaterEqThan.constraints 16 (RSASetupVerifier.geP s) = true |- _ =>
    apply GreaterEqThan_sound in H as (v & Hv & Hveq & _) end.
  match goal with H : LessEqThan.constraints 16 (RSASetupVerifier.leP s) = true |- _ =>
    apply LessEqThan_sound in H as (v' & Hv' & Hveq' & _) end.
  rewrite fshl_1_16 in Hveq, Hveq'.
  repeat match goal with
         | H : fst (GreaterEqThan.in_ (RSASetupVerifier.geP s)) == _ |- _ =>
             rewrite H in Hveq; clear H
         | H : snd (GreaterEqThan.in_ (RSASetupVerifier.geP s)) == _ |- _ =>
             rewrite H in Hveq; clear H
         | H : fst (LessEqThan.in_ (RSASetupVerifier.leP s)) == _ |- _ =>
             rewrite H in Hveq'; clear H
         | H : snd (LessEqThan.in_ (RSASetupVerifier.leP s)) == _ |- _ =>
             rewrite H in Hveq'; clear H
         end.
  assert (Hsum : v + v' == hi - lo + 131072).
  { rewrite Hveq, Hveq'. apply eqm_of_eq; ring. }
  change (2 ^ Z.of_nat 17) with 131072 in *.
  apply eqm_ex in Hsum as [k Hk].
  assert (Hpow : 2 ^ (253 - 1) < Fr - 262144) by reflexivity.
  assert (Hc : k <= -1 \/ k = 0 \/ 1 <= k) by lia.
  destruct Hc as [Hc|[Hc|Hc]]; nia.
Qed.

(** X14 at bit length 18 and the witness computed for p = 131101,
    q = 131111. *)
Lemma X14_large_bit_lengths_unsatisfiable_witness :
  18 <= 18 <= 253
  /\ circuit_constraints (__init__ 18) (circuit_witness (__init__ 18) 131101 131111)
     = false.
Proof.
  assert (H1 : 18 <= 18 <= 253) by (split; intros E; discriminate E).
  exact (conj H1 (X14_large_bit_lengths_unsatisfiable 18 _ H1)).
Defined.

(** ** Bits2Num *)

Lemma zero_or_one_is_bit b : zero_or_one b -> is_bit b.
Proof. intros [->| ->]; [left|right]; reflexivity. Qed.

Lemma zero_or_one_mod b : zero_or_one b -> b mod Fr = b.
Proof.
  pose proof Fr_large as HFr. intros [->| ->]; apply Z.mod_small; lia.
Qed.

(** X15. Bits2Num(n) for a width with 2^n <= Fr, on an array of n bits:
    the output computed by the template satisfies its constraint, is
    exactly the binary number the bits write (least significant first,
    no reduction modulo the field), and Num2Bits(n) applied to that output
    gives the bits back. *)
Theorem X15_Bits2Num_then_Num2Bits (n : nat) (bs : list Z) :
  2 ^ Z.of_nat n <= Fr -> length bs = n -> Forall zero_or_one bs ->
  let s := Bits2Num.witness n bs in
  Bits2Num.constraints n s = true
  /\ Bits2Num.out s = bits_value bs
  /\ 0 <= Bits2Num.out s < 2 ^ Z.of_nat n
  /\ Num2Bits.out (Num2Bits.witness n (Bits2Num.out s)) = bs.
Proof.
  intros Hn Hlen Hbs s.
  assert (Hbits : Forall is_bit bs)
    by (eapply Forall_impl; [|exact Hbs]; apply zero_or_one_is_bit).
  pose proof (bits_value_bound bs Hbits) as Hb. rewrite Hlen in Hb.
  assert (Hout : Bits2Num.out s = bits_value bs).
  { subst s. cbn [Bits2Num.witness Bits2Num.out].
    apply eqm_small; [apply lc_canonical|lia|].
    rewrite lc_eqm, <- Hlen, firstn_all. reflexivity. }
  split_and.
  - subst s. unfold Bits2Num.constraints. cbn [Bits2Num.witness Bits2Num.in_ Bits2Num.out].
    rewrite Hlen, Nat.eqb_refl. apply feq_iff. reflexivity.
  - exact Hout.
  - rewrite Hout. lia.
  - rewrite Hout. lia.
  - rewrite Hout. cbn [Num2Bits.witness Num2Bits.out].
    apply (nth_ext _ _ 0 0).
    + rewrite length_map, length_seq. symmetry; exact Hlen.
    + intros i Hi. rewrite length_map, length_seq in Hi.
      rewrite nth_bits by exact Hi. rewrite bit_spec.
      rewrite <- bits_value_digit by (try exact Hbits; lia).
      apply zero_or_one_mod. rewrite Forall_forall in Hbs. apply Hbs.
      apply nth_In. lia.
Qed.

(** X15 at the 4 bits 1, 0, 1, 1 (the number 13). *)
Lemma X15_Bits2Num_then_Num2Bits_witness :
  Bits2Num.out (Bits2Num.witness 4 [1; 0; 1; 1]) = bits_value [1; 0; 1; 1]
  /\ Num2Bits.out (Num2Bits.witness 4 (Bits2Num.out (Bits2Num.witness 4 [1; 0; 1; 1])))
     = [1; 0; 1; 1].
Proof.
  assert (H1 : 2 ^ Z.of_nat 4 <= Fr) by (intros E; discriminate E).
  assert (H2 : length [1; 0; 1; 1] = 4%nat) by reflexivity.
  assert (H3 : Forall zero_or_one [1; 0; 1; 1])
    by (repeat constructor; (left; reflexivity) || (right; reflexivity)).
  pose proof (X15_Bits2Num_then_Num2Bits 4 [1; 0; 1; 1] H1 H2 H3) as (_ & E1 & _ & E2).
  exact (conj E1 E2).
Defined.

(** ** SimplePrimalityTest: what the constraints force *)

Lemma eqm_dec a b : a == b \/ ~ (a == b).
Proof. unfold eqm. destruct (Z.eq_dec (a mod Fr) (b mod Fr)); auto. Qed.

Lemma ModulusCheck_flag_bit n mc : ModulusCheck.constraints n mc = true ->
  is_bit (ModulusCheck.isNotDivisible mc).
Proof.
  unfold ModulusCheck.constraints. rewrite !andb_true_iff.
  intros (((_ & _) & Hz) & Hf). apply feq_iff in Hf. rewrite fsub_eqm in Hf.
  destruct (IsZero_sound _ Hz) as [H0 H1].
  destruct (eqm_dec (IsZero.in_ (ModulusCheck.isZero mc)) 0) as [E|E].
  - left. rewrite Hf, (H0 E). reflexivity.
  - right. rewrite Hf, (H1 E). reflexivity.
Qed.

Lemma bit_mul a b : is_bit a -> is_bit b ->
  is_bit (a * b) /\ (a * b == 1 <-> a == 1 /\ b == 1).
Proof.
  unfold is_bit. intros [Ha|Ha] [Hb|Hb].
  - assert (E : a * b == 0) by (rewrite Ha, Hb; reflexivity).
    split; [left; exact E|]. split.
    + intros H. exfalso. apply one_not_zero. rewrite <- H. exact E.
    + intros [H _]. exfalso. apply one_not_zero. rewrite <- H. exact Ha.
  - assert (E : a * b == 0) by (rewrite Ha, Hb; reflexivity).
    split; [left; exact E|]. split.
    + intros H. exfalso. apply one_not_zero. rewrite <- H. exact E.
    + intros [H _]. exfalso. apply one_not_zero. rewrite <- H. exact Ha.
  - assert (E : a * b == 0) by (rewrite Ha, Hb; reflexivity).
    split; [left; exact E|]. split.
    + intros H. exfalso. apply one_not_zero. rewrite <- H. exact E.
    + intros [_ H]. exfalso. apply one_not_zero. rewrite <- H. exact Hb.
  - assert (E : a * b == 1) by (rewrite Ha, Hb; reflexivity).
    split; [right; exact E|]. split; [intros _; split; assumption|intros _; exact E].
Qed.

Lemma accumulated_conjunction s : SimplePrimalityTest.constraints s = true ->
  forall k, (k < 54)%nat ->
  is_bit (nth k (SimplePrimalityTest.accumulated s) 0)
  /\ (nth k (SimplePrimalityTest.accumulated s) 0 == 1
      <-> forall j, (j <= k)%nat ->
          ModulusCheck.isNotDivisible
            (nth j (SimplePrimalityTest.modChecks s) ModulusCheck.zero) == 1).
Proof.
  unfold SimplePrimalityTest.constraints. rewrite !andb_true_iff.
  intros ((((((_ & _) & _) & Hmc) & H0) & Hstep) & _).
  rewrite forallb_forall in Hmc, Hstep. apply feq_iff in H0.
  assert (Hchk : forall i, (i < 54)%nat ->
    is_bit (nth i (SimplePrimalityTest.checks s) 0)
    /\ nth i (SimplePrimalityTest.checks s) 0
       == ModulusCheck.isNotDivisible
            (nth i (SimplePrimalityTest.modChecks s) ModulusCheck.zero)).
  { intros i Hi. specialize (Hmc i ltac:(apply in_seq; lia)). cbv zeta in Hmc.
    rewrite !andb_true_iff in Hmc. destruct Hmc as (((Hc & _) & _) & Hf).
    apply feq_iff in Hf. apply ModulusCheck_flag_bit in Hc.
    split; [|exact Hf]. destruct Hc as [E|E]; [left|right]; rewrite Hf; exact E. }
  induction k as [|k IH]; intros Hk.
  - destruct (Hchk 0%nat Hk) as [Hb Hf]. split.
    + destruct Hb as [E|E]; [left|right]; rewrite H0; exact E.
    + rewrite H0, Hf. split.
      * intros H j Hj. replace j with 0%nat by lia. exact H.
      * intros H. apply H. lia.
  - destruct (IH ltac:(lia)) as [Hbk Hiff].
    destruct (Hchk (S k) Hk) as [Hb Hf].
    specialize (Hstep (S k) ltac:(apply in_seq; lia)).
    apply feq_iff in Hstep. rewrite fmul_eqm in Hstep.
    replace (S k - 1)%nat with k in Hstep by lia.
    destruct (bit_mul _ _ Hbk Hb) as [Hbm Him].
    split.
    + destruct Hbm as [E|E]; [left|right]; rewrite Hstep; exact E.
    + rewrite Hstep, Him, Hiff, Hf. split.
      * intros [H1 H2] j Hj. destruct (Nat.eq_dec j (S k)) as [->|Hne];
          [exact H2|apply H1; lia].
      * intros H. split; [intros j Hj; apply H; lia|apply H; lia].
Qed.

(** X16. In every assignment that satisfies the constraints of
    SimplePrimalityTest, the output isPrime is 0 or 1, and it is 1 exactly
    when every one of the 54 component outputs modChecks[i].isNotDivisible
    is 1: the chain accumulated[i] = accumulated[i-1] * checks[i] is the
    conjunction of the flags. *)
Theorem X16_isPrime_is_conjunction_of_flags (s : SimplePrimalityTest.signals) :
  SimplePrimalityTest.constraints s = true ->
  is_bit (SimplePrimalityTest.isPrime s)
  /\ (SimplePrimalityTest.isPrime s == 1
      <-> forall i, (i < 54)%nat ->
          ModulusCheck.isNotDivisible
            (nth i (SimplePrimalityTest.modChecks s) ModulusCheck.zero) == 1).
Proof.
  intros Hs. destruct (accumulated_conjunction s Hs 53%nat ltac:(lia)) as [Hb Hiff].
  unfold SimplePrimalityTest.constraints in Hs. rewrite !andb_true_iff in Hs.
  destruct Hs as (_ & Hp). apply feq_iff in Hp. split.
  - destruct Hb as [E|E]; [left|right]; rewrite Hp; exact E.
  - rewrite Hp, Hiff. split; intros H i Hi; apply H; lia.
Qed.

(** X16 at the assignment computed for the input 32771. *)
Lemma X16_isPrime_is_conjunction_of_flags_witness :
  SimplePrimalityTest.constraints (SimplePrimalityTest.witness 32771) = true
  /\ is_bit (SimplePrimalityTest.isPrime (SimplePrimalityTest.witness 32771)).
Proof.
  pose proof (SimplePrimalityTest_witness_ok 32771) as H.
  exact (conj H (proj1 (X16_isPrime_is_conjunction_of_flags _ H))).
Defined.

(** ** The Python validator on all its branches *)

(** X17. _is_prime(n), for every integer n below 2^32 (negative ones
    included), where the truncated double square root is the integer
    square root: it returns True exactly on the primes, and it returns
    False exactly when n < 2 or n has a divisor d with 1 < d and
    d * d <= n, so stopping the trial division at int(n**0.5) loses
    nothing. *)
Theorem X17_is_prime_decides_primality (n : Z) :
  n < 2 ^ 32 ->
  (_is_prime n = true <-> Z.prime n)
  /\ (_is_prime n = false
      <-> n < 2 \/ exists d, 1 < d /\ d * d <= n /\ (d | n)).
Proof.
  intros _. split; [apply _is_prime_correct|].
  destruct (_is_prime n) eqn:E.
  - apply _is_prime_correct in E. pose proof (Z.prime_ge_2 _ E) as Hge.
    split; [discriminate|]. intros [H|(d & Hd & Hdd & Hdiv)]; [lia|].
    exfalso. destruct E as [_ Hrel].
    assert (Hdn : 1 < d < n) by nia.
    exact (Hrel d Hdn Hdiv).
  - split; [intros _|reflexivity].
    destruct (Z_lt_dec n 2) as [Hlt|Hge]; [left; exact Hlt|right].
    assert (Hnp : ~ Z.prime n)
      by (intros Hp; apply _is_prime_correct in Hp; congruence).
    assert (Hnp' : ~ prime n) by (intros Hp; apply Hnp, prime_alt, Hp).
    apply not_prime_divide in Hnp'; [|lia].
    destruct Hnp' as (a & Ha & Hdiv).
    destruct (small_factor n a Ha Hdiv) as (k & Hk).
    exists k. exact Hk.
Qed.

(** X17 at n = 65537. *)
Lemma X17_is_prime_decides_primality_witness :
  65537 < 2 ^ 32 /\ (_is_prime 65537 = true <-> Z.prime 65537).
Proof.
  assert (H : 65537 < 2 ^ 32) by reflexivity.
  exact (conj H (proj1 (X17_is_prime_decides_primality 65537 H))).
Defined.

(** ** find_16bit_primes for every bit length *)

(** X18. find_16bit_primes on an object built with any bit length of at
    least 1, for every count: the result is empty unless the bit length is
    2, where it is the first count entries of [2, 3].  From bit length 3
    on min_value is an even number above 2 and the scan, advancing by 2,
    only meets even numbers. *)
Theorem X18_find_16bit_primes_by_bit_length (bl count : Z) :
  1 <= bl ->
  find_16bit_primes (__init__ bl) count
  = Some (if bl =? 2 then firstn (Z.to_nat count) [2; 3] else []).
Proof.
  intros Hbl.
  destruct (Z.eq_dec bl 1) as [->|H1].
  { change (find_16bit_primes (__init__ 1) count)
      with (find_loop 1 {| bit_length := 1; min_value := 1; max_value := 1 |}
                      count [] 1).
    cbn [find_loop length max_value]. change (Z.of_nat 0) with 0.
    change (_is_prime 1) with false. cbv iota.
    change (1 + (if 1 >? 2 then 2 else 1) <=? 1) with false.
    rewrite andb_false_r. destruct (0 <? count); reflexivity. }
  destruct (Z.eq_dec bl 2) as [->|H2].
  { change (find_16bit_primes (__init__ 2) count)
      with (find_loop 2 {| bit_length := 2; min_value := 2; max_value := 3 |}
                      count [] 2).
    change (2 =? 2) with true. cbv iota.
    cbn [find_loop length max_value]. change (Z.of_nat 0) with 0.
    destruct (Z.ltb_spec 0 count) as [H0|H0]; cbn [andb].
    2:{ replace (Z.to_nat count) with 0%nat by lia. reflexivity. }
    change (2 <=? 3) with true. change (_is_prime 2) with true.
    change (2 >? 2) with false. cbv iota. change (2 + 1) with 3.
    cbn [app length]. change (Z.of_nat 1) with 1.
    destruct (Z.ltb_spec 1 count) as [Hc|Hc]; cbn [andb].
    2:{ replace (Z.to_nat count) with 1%nat by lia. reflexivity. }
    change (3 <=? 3) with true. change (_is_prime 3) with true.
    change (3 >? 2) with true. cbv iota. change (3 + 2) with 5.
    cbn [app length]. change (5 <=? 3) with false. rewrite andb_false_r.
    destruct (Z.to_nat count) as [|[|k]] eqn:Ek; [lia|lia|destruct k; reflexivity]. }
  destruct (Z.eqb_spec bl 2) as [|_]; [contradiction|].
  destruct (bit_length_bounds bl 3 bl ltac:(lia) ltac:(lia)) as (Hlo & Hmax & _).
  change (2 ^ (3 - 1)) with 4 in Hlo.
  unfold find_16bit_primes. apply find_loop_even.
  - lia.
  - cbn [__init__ min_value]. replace (bl - 1) with (Z.succ (bl - 2)) by lia.
    rewrite Z.pow_succ_r by lia. rewrite Z.mul_comm. apply Z.mod_mul. lia.
  - lia.
Qed.

(** X18 at bit length 2 and count 10. *)
Lemma X18_find_16bit_primes_by_bit_length_witness :
  1 <= 2 /\ find_16bit_primes (__init__ 2) 10 = Some [2; 3].
Proof.
  assert (H : 1 <= 2) by (intros E; discriminate E).
  exact (conj H (X18_find_16bit_primes_by_bit_length 2 10 H)).
Defined.

(** ** find_16bit_primes on any object *)

Lemma StronglySorted_snoc l : forall n,
  StronglySorted Z.lt l -> Forall (fun x => x < n) l ->
  StronglySorted Z.lt (l ++ [n]).
Proof.
  induction l as [|a l IH]; intros n Hs Hb; cbn [app].
  - constructor; constructor.
  - inversion Hs as [|? ? Hs' Ha]; subst. inversion Hb as [|? ? Han Hb']; subst.
    constructor; [apply IH; assumption|].
    apply Forall_app. split; [exact Ha|constructor; [exact Han|constructor]].
Qed.

Lemma find_loop_sound self count fuel : forall primes n l,
  find_loop fuel self count primes n = Some l ->
  Forall (fun x => Z.prime x /\ min_value self <= x <= max_value self /\ x < n) primes ->
  StronglySorted Z.lt primes ->
  Z.of_nat (length primes) <= Z.max count 0 ->
  min_value self <= n ->
  Forall (fun x => Z.prime x /\ min_value self <= x <= max_value self) l
  /\ StronglySorted Z.lt l
  /\ Z.of_nat (length l) <= Z.max count 0.
Proof.
  assert (Hweak : forall primes n,
    Forall (fun x => Z.prime x /\ min_value self <= x <= max_value self /\ x < n) primes ->
    Forall (fun x => Z.prime x /\ min_value self <= x <= max_value self) primes).
  { intros primes n H. eapply Forall_impl; [|exact H]. cbv beta. tauto. }
  induction fuel as [|fuel IH]; intros primes n l Hrun Hall Hsort Hlen Hn;
    cbn [find_loop] in Hrun.
  - destruct ((Z.of_nat (length primes) <? count) && (n <=? max_value self));
      [discriminate|].
    injection Hrun as <-. split; [eapply Hweak; exact Hall|]. split; assumption.
  - destruct ((Z.of_nat (length primes) <? count) && (n <=? max_value self)) eqn:Ec.
    2:{ injection Hrun as <-. split; [eapply Hweak; exact Hall|]. split; assumption. }
    apply andb_true_iff in Ec as [Ec1 Ec2].
    apply Z.ltb_lt in Ec1. apply Z.leb_le in Ec2.
    assert (Hstep : n < n + (if n >? 2 then 2 else 1)) by (destruct (n >? 2); lia).
    assert (Hall' : Forall (fun x => Z.prime x /\ min_value self <= x <= max_value self
                                     /\ x < n + (if n >? 2 then 2 else 1)) primes).
    { eapply Forall_impl; [|exact Hall]. cbv beta. intros x (Hx1 & Hx2 & Hx3).
      split; [exact Hx1|]. split; [exact Hx2|lia]. }
    apply IH in Hrun; [exact Hrun| | | |lia].
    + destruct (_is_prime n) eqn:Ep; [|exact Hall'].
      apply Forall_app. split; [exact Hall'|].
      constructor; [|constructor].
      split; [apply _is_prime_correct; exact Ep|]. split; lia.
    + destruct (_is_prime n); [|exact Hsort].
      apply StronglySorted_snoc; [exact Hsort|].
      eapply Forall_impl; [|exact Hall]. cbv beta. tauto.
    + destruct (_is_prime n); [|exact Hlen].
      rewrite length_app. cbn [length]. lia.
Qed.

(** X19. find_16bit_primes on any object whose max_value is below 2^32
    (every number the scan tests is at most max_value, so _is_prime
    computes its square root exactly) and for any count returns (the while
    loop ends), and the list it returns holds only primes of
    [min_value, max_value], in strictly increasing order (so without
    repetition), and at most count of them (none for a count below 1). *)
Theorem X19_find_16bit_primes_sound (self : self_t) (count : Z) :
  max_value self < 2 ^ 32 ->
  exists l, find_16bit_primes self count = Some l
    /\ Forall (fun x => Z.prime x /\ min_value self <= x <= max_value self) l
    /\ StronglySorted Z.lt l
    /\ Z.of_nat (length l) <= Z.max count 0.
Proof.
  intros _.
  destruct (find_16bit_primes_total self count) as [l Hl].
  exists l. split; [exact Hl|].
  unfold find_16bit_primes in Hl.
  apply (find_loop_sound _ _ _ _ _ _ Hl).
  - constructor.
  - constructor.
  - cbn [length]. lia.
  - lia.
Qed.

(** X19 at an object that scans the odd numbers from 32769 to 65535, for
    count = 3. *)
Lemma X19_find_16bit_primes_sound_witness :
  let self := {| bit_length := 16; min_value := 32769; max_value := 65535 |} in
  max_value self < 2 ^ 32
  /\ exists l, find_16bit_primes self 3 = Some l
       /\ Forall (fun x => Z.prime x /\ min_value self <= x <= max_value self) l
       /\ StronglySorted Z.lt l
       /\ Z.of_nat (length l) <= Z.max 3 0.
Proof.
  intros self.
  assert (H : max_value self < 2 ^ 32) by reflexivity.
  exact (conj H (X19_find_16bit_primes_sound self 3 H)).
Defined.

Section DriverProperties.
Variable Proof : Type.
Variable proof_json : Z -> Z -> Proof.
Variable public_json : Z -> Z -> exn + Z.
Variable clock : Z.
Variable failure : effect -> option exn.
Variable isqrt_float : Z -> Z.
Variable ptau_exists : bool.
Variable fetch : string -> bool.
Variable circom_returncode : Z.
Variable verify_stdout : Proof -> Z -> string.

Lemma try_urls_spec l : forall t,
  exists failed rest, l = failed ++ rest
    /\ Forall (fun u => fetch u = false) failed
    /\ match rest with
       | [] => Driver.try_urls fetch l t
               = (inr false, t ++ map Driver.UrlOpen l)
       | u :: _ => fetch u = true
                   /\ Driver.try_urls fetch l t
                      = (inr true, t ++ map Driver.UrlOpen (failed ++ [u]))
       end.
Proof.
  induction l as [|url l IH]; intros t.
  - exists [], []. split; [reflexivity|]. split; [constructor|].
    cbn. rewrite app_nil_r. reflexivity.
  - cbn [Driver.try_urls]. unfold Driver.bind, Driver.perform.
    destruct (fetch url) eqn:E.
    + exists [], (url :: l). split; [reflexivity|]. split; [constructor|].
      split; [exact E|]. reflexivity.
    + destruct (IH (t ++ [Driver.UrlOpen url])) as (failed & rest & Hl & Hf & Hr).
      exists (url :: failed), rest. split; [rewrite Hl; reflexivity|].
      split; [constructor; assumption|].
      destruct rest as [|u rest'].
      * rewrite Hr. cbn [map]. rewrite <- app_assoc. reflexivity.
      * destruct Hr as [Hu Hr]. split; [exact Hu|]. rewrite Hr.
        cbn [map app]. rewrite <- app_assoc. reflexivity.
Qed.

(** X20. download_ptau.  When the powers-of-tau file exists, the method
    returns after the existence test and opens no URL.  Otherwise it tries
    the URLs in the order of the list and stops at the first one whose
    download succeeds, without opening the ones after it; it raises
    Exception("Could not download Powers of Tau file") exactly when every
    download fails, after having tried them all. *)
Theorem X20_download_ptau_tries_urls_in_order (t : list Driver.event) :
  let r := Driver.download_ptau ptau_exists fetch t in
  (ptau_exists = true ->
     r = (inr tt, t ++ [Driver.PathExists Driver.ptau_path]))
  /\ (ptau_exists = false ->
      exists failed rest, Driver.urls = failed ++ rest
        /\ Forall (fun u => fetch u = false) failed
        /\ match rest with
           | [] => r = (inl (Driver.Exception "Could not download Powers of Tau file"),
                        t ++ Driver.PathExists Driver.ptau_path
                          :: map Driver.UrlOpen Driver.urls)
           | u :: _ => fetch u = true
                       /\ r = (inr tt,
                               t ++ Driver.PathExists Driver.ptau_path
                                 :: map Driver.UrlOpen (failed ++ [u]))
           end).
Proof.
  intros r. subst r. unfold Driver.download_ptau, Driver.bind, Driver.perform.
  split; intros ->.
  - reflexivity.
  - destruct (try_urls_spec Driver.urls (t ++ [Driver.PathExists Driver.ptau_path]))
      as (failed & rest & Hl & Hf & Hr).
    exists failed, rest. split; [exact Hl|]. split; [exact Hf|].
    destruct rest as [|u rest'].
    + rewrite Hr. unfold Driver.raise. rewrite <- app_assoc. reflexivity.
    + destruct Hr as [Hu Hr]. split; [exact Hu|]. rewrite Hr.
      unfold Driver.ret. rewrite <- app_assoc. reflexivity.
Qed.









End DriverProperties.
